(** * ts-node-sql-migrator: the migration engine of [src/index.ts]

    A shallow embedding of the migration runner and the properties of its
    four actions (up, down, reset, new).

    - JavaScript strings are [string]s, a character standing for one code
      unit; [split], [startsWith], [endsWith], [includes], [find] and
      [sort] are the JavaScript methods of the same names.
    - The PostgreSQL database is a record [DB]: the ledger tables by name,
      the user scripts the server has executed, the server clock behind
      [NOW()], and the log of every statement the program sent.
    - The file system is a finite map from directory paths to directories,
      a directory being a finite map from entry names to file contents.
    - An action is a function from the world before to an outcome and the
      world after; [throw], [try]/[catch] and [process.exit] are explicit.
      What the program prints with [console.log] is left out. *)

From Stdlib Require Import Ascii.
From stdpp Require Import gmap strings sorting list.

(** ** JavaScript string and array methods *)

Module Js.

(** [s.startsWith(p)] *)
Fixpoint startsWith (s p : string) : bool :=
  match p, s with
  | "", _ => true
  | String _ _, "" => false
  | String a p', String b s' => if decide (a = b) then startsWith s' p' else false
  end.

(** [s.endsWith(p)] *)
Definition endsWith (s p : string) : bool :=
  startsWith (String.rev s) (String.rev p).

(** [s.split(sep)] for a non-empty separator: the pieces between the
    occurrences of [sep], found from left to right without overlap.
    [skip] counts the characters of a separator just matched that are
    still to be passed over. *)
Fixpoint split_go (sep : string) (skip : nat) (s : string) : list string :=
  match s with
  | "" => [""]
  | String c s' =>
      match skip with
      | S k => split_go sep k s'
      | O =>
          if startsWith s sep
          then "" :: split_go sep (String.length sep - 1) s'
          else match split_go sep 0 s' with
               | piece :: pieces => String c piece :: pieces
               | [] => [String c ""]
               end
      end
  end.

(** [s.split('')] gives the code units of [s] one by one. *)
Fixpoint chars (s : string) : list string :=
  match s with
  | "" => []
  | String c s' => String c "" :: chars s'
  end.

Definition split (s sep : string) : list string :=
  match sep with
  | "" => chars s
  | _ => split_go sep 0 s
  end.

(** [x || ''] for [x] a string or [undefined]: both [undefined] and the
    empty string give the empty string. *)
Definition or_empty (x : option string) : string := default "" x.

(** [arr.includes(x)] on an array of strings *)
Definition includes (arr : list string) (x : string) : bool :=
  bool_decide (x ∈ arr).

(** [arr.sort()]: ascending in code-unit order *)
Definition sort (arr : list string) : list string := merge_sort String.le arr.

End Js.

(** ** Script files *)

Definition UP_MARKER : string := "-- +migrator UP".
Definition DOWN_MARKER : string := "-- +migrator DOWN".

(** [file.split('_')[0]]; a split has at least one piece. *)
Definition version_of (file : string) : string :=
  default "" (Js.split file "_" !! 0%nat).

(** [migrationScripts.split('-- +migrator UP')[1] || ''] followed by
    [sqls?.split('-- +migrator DOWN')[0] || ''] (migrateUp) *)
Definition extractUp (migrationScripts : string) : string :=
  let sqls := Js.or_empty (Js.split migrationScripts UP_MARKER !! 1%nat) in
  Js.or_empty (Js.split sqls DOWN_MARKER !! 0%nat).

(** [migrationScripts.split('-- +migrator DOWN')[1] || ''] followed by
    [sqls?.split('-- +migrator UP')[0] || ''] (migrateDown, migrateReset) *)
Definition extractDown (migrationScripts : string) : string :=
  let sqls := Js.or_empty (Js.split migrationScripts DOWN_MARKER !! 1%nat) in
  Js.or_empty (Js.split sqls UP_MARKER !! 0%nat).

(** ** The database

    The two ledger tables are the only tables the program reads or writes
    itself; they have the columns of the [CREATE TABLE] statement in
    [runMigrations]. What the user's scripts do to the rest of the database
    is not interpreted: the server either accepts a script, and then it is
    appended to [executed], or rejects it and leaves the database as it was.
    Scripts are taken not to touch the ledger tables. *)

Record Row := mkRow {
  row_id : nat;              (* id BIGSERIAL PRIMARY KEY *)
  row_version : string;      (* version VARCHAR(255) NOT NULL; a version is
                                part of a file name and fits *)
  row_created_at : nat       (* created_at TIMESTAMP NOT NULL DEFAULT NOW() *)
}.

Record Table := mkTable {
  table_rows : list Row;
  table_serial : nat         (* next value of the id sequence *)
}.

Definition empty_table : Table := mkTable [] 1.

(** The statements the program sends through [db.query]. *)
Inductive Query :=
  | CreateTableIfNotExists (table : string)
      (* CREATE TABLE IF NOT EXISTS table (id ..., version ..., created_at ...) *)
  | SelectVersions (table : string)
      (* SELECT version FROM table *)
  | SelectLatestVersion (table : string)
      (* SELECT version FROM table ORDER BY created_at DESC LIMIT 1 *)
  | InsertVersion (table : string) (v : string)
      (* INSERT INTO table (version) VALUES ($1), [v] *)
  | DeleteVersion (table : string) (v : string)
      (* DELETE FROM table WHERE version = $1, [v] *)
  | DeleteAll (table : string)
      (* DELETE FROM table *)
  | DropTableIfExists (table : string)
      (* DROP TABLE IF EXISTS table *)
  | Script (sql : string).
      (* the UP or DOWN body of a script, as it is *)

Record ResultRow := mkResultRow { version : string }.
Record QueryResult := mkResult { rows : list ResultRow; rowCount : nat }.

Record DB := mkDB {
  tables : gmap string Table;
  executed : list string;    (* user scripts the server has run, oldest first *)
  clock : nat;               (* server time, one tick per statement *)
  issued : list Query        (* every statement received, oldest first *)
}.

(** [ORDER BY created_at DESC]; which of two rows of one instant comes first
    is the sort's choice, as it is the server's. *)
Definition newer (a b : Row) : Prop := row_created_at b ≤ row_created_at a.

Global Instance newer_dec : RelDecision newer.
Proof. intros a b. unfold newer. apply _. Defined.

Definition latest_first (rs : list Row) : list Row := merge_sort newer rs.

Definition result_of (rs : list Row) : QueryResult :=
  mkResult ((λ r, mkResultRow (row_version r)) <$> rs) (length rs).

Definition insert_row (v : string) (now : nat) (tb : Table) : Table :=
  mkTable (table_rows tb ++ [mkRow (table_serial tb) v now]) (S (table_serial tb)).

Definition delete_rows (v : string) (tb : Table) : Table :=
  mkTable (List.filter (λ r, negb (bool_decide (row_version r = v))) (table_rows tb))
          (table_serial tb).

(** ** The file system and the process

    A directory is known by its path, a list of names from the root; its
    entries are files, each name a single path component. The clock of the
    machine is read once per run, by New. *)

Abbreviation Path := (list string).
Abbreviation Dir := (gmap string string).

Record World := mkWorld {
  database : DB;
  fs : gmap Path Dir;
  date_now : string          (* what [new Date().toISOString()] returns *)
}.

Definition set_database (d : DB) (w : World) : World := mkWorld d (fs w) (date_now w).
Definition set_fs (f : gmap Path Dir) (w : World) : World := mkWorld (database w) f (date_now w).

Inductive Error :=
  | ConnectionRequired                      (* Error('Database connection is required') *)
  | SeederCannotBeReverted                  (* Error("Seeder cannot be reverted. use 'reset' instead.") *)
  | UndefinedRow                            (* TypeError: rows[0] is undefined *)
  | ScriptNotFound (v : string)             (* Error(`Migration script version ${version} not found`) *)
  | MissingVersion (missing : list string)  (* Error(`Missing version: ${missingVersions}`) *)
  | NameRequired                            (* Error("name argument required") *)
  | QueryError (q : Query)                  (* the server rejected the statement *)
  | NoSuchDirectory (dir : Path)            (* ENOENT *)
  | NoSuchFile (dir : Path) (file : string).

Inductive Res (A : Type) :=
  | Ok (a : A)
  | Throw (e : Error).
Global Arguments Ok {A} a.
Global Arguments Throw {A} e.

(** A computation that may throw; the effects before the throw stay. *)
Definition Eff (A : Type) : Type := World → Res A * World.

Global Instance eff_ret : MRet Eff := λ A a w, (Ok a, w).
Global Instance eff_bind : MBind Eff := λ A B f m w,
  match m w with
  | (Ok a, w') => f a w'
  | (Throw e, w') => (Throw e, w')
  end.

Definition throw {A} (e : Error) : Eff A := λ w, (Throw e, w).

(** How a call of one of the four actions ends. *)
Inductive Outcome :=
  | Returned
  | Threw (e : Error)                             (* the exception reaches the caller *)
  | Exited (code : nat) (label : string) (e : Error).
      (* [console.error(label, e.message); process.exit(code)] *)

Definition throws (e : Error) : World → Outcome * World := λ w, (Threw e, w).

(** [try { body } catch (e) { console.error(label, e.message); process.exit(1) }] *)
Definition try_exit (label : string) (body : Eff unit) : World → Outcome * World :=
  λ w, match body w with
       | (Ok _, w') => (Returned, w')
       | (Throw e, w') => (Exited 1 label e, w')
       end.

(** A body outside any [try]. *)
Definition no_try (body : Eff unit) : World → Outcome * World :=
  λ w, match body w with
       | (Ok _, w') => (Returned, w')
       | (Throw e, w') => (Threw e, w')
       end.

(** The names of the entries of a directory, in the order in which
    [readdirSync] lists them: ascending by code units, the order of the
    [scandir] of libuv. *)
Definition entries (d : Dir) : list string :=
  merge_sort String.le (map_to_list d).*1.

(** [fs.readdirSync(dir)]; entries are files. *)
Definition readdirSync (dir : Path) : Eff (list string) := λ w,
  match fs w !! dir with
  | Some d => (Ok (entries d), w)
  | None => (Throw (NoSuchDirectory dir), w)
  end.

(** [fs.readFileSync(join(dir, file), 'utf8')] *)
Definition readFileSync (dir : Path) (file : string) : Eff string := λ w,
  match fs w !! dir with
  | Some d => match d !! file with
              | Some contents => (Ok contents, w)
              | None => (Throw (NoSuchFile dir file), w)
              end
  | None => (Throw (NoSuchDirectory dir), w)
  end.

(** [fs.existsSync(dir)] *)
Definition existsSync (dir : Path) : Eff bool := λ w,
  (Ok (bool_decide (is_Some (fs w !! dir))), w).

(** The directory itself and the directories above it, up to the root. *)
Definition ancestors (dir : Path) : list Path :=
  (λ n, take n dir) <$> seq 0 (S (length dir)).

(** [fs.mkdirSync(dir, { recursive: true })]: what exists is kept. *)
Definition mkdirSync_recursive (dir : Path) : Eff unit := λ w,
  (Ok (), set_fs (fs w ∪ gset_to_gmap (∅ : Dir) (list_to_set (ancestors dir))) w).

(** [path.join(dir, rel)] for a directory given by its names from the root:
    the segments of [rel] between separators are followed from [dir]; an
    empty segment and [.] stay where they are, [..] goes up, the root being
    its own parent, and any other segment goes down. *)
Definition join_segment (p : Path) (seg : string) : Path :=
  if decide (seg = "" ∨ seg = ".") then p
  else if decide (seg = "..") then removelast p
  else p ++ [seg].

Definition join (dir : Path) (rel : string) : Path :=
  foldl join_segment dir (Js.split rel "/").

(** The directory of a path and the name of the file in it. *)
Definition dirname (p : Path) : Path := removelast p.
Definition basename (p : Path) : string := default "" (last p).

(** [fs.writeFileSync(path, contents)] for the path of the file [file] of
    the directory [dir]: creates or replaces the file; the directory has to
    exist. *)
Definition writeFileSync (dir : Path) (file contents : string) : Eff unit := λ w,
  match fs w !! dir with
  | Some d => (Ok (), set_fs (<[dir := <[file := contents]> d]> (fs w)) w)
  | None => (Throw (NoSuchDirectory dir), w)
  end.

(** [new Date().toISOString()] *)
Definition toISOString_now : Eff string := λ w, (Ok (date_now w), w).

Section Engine.

(** The server's verdict on a user script, given the scripts it has
    executed before. *)
Variable accepts : list string → string → bool.

(** The effect of a statement on the tables and the scripts executed,
    and its result; [None] when the server rejects it. *)
Definition answer (q : Query) (d : DB)
  : option (gmap string Table * list string * QueryResult) :=
  match q with
  | CreateTableIfNotExists t =>
      Some (match tables d !! t with
            | Some _ => tables d
            | None => <[t := empty_table]> (tables d)
            end, executed d, result_of [])
  | SelectVersions t =>
      tb ← tables d !! t;
      Some (tables d, executed d, result_of (table_rows tb))
  | SelectLatestVersion t =>
      tb ← tables d !! t;
      Some (tables d, executed d, result_of (take 1 (latest_first (table_rows tb))))
  | InsertVersion t v =>
      tb ← tables d !! t;
      Some (<[t := insert_row v (clock d) tb]> (tables d), executed d, mkResult [] 1)
  | DeleteVersion t v =>
      tb ← tables d !! t;
      Some (<[t := delete_rows v tb]> (tables d), executed d,
            mkResult [] (length (table_rows tb) - length (table_rows (delete_rows v tb))))
  | DeleteAll t =>
      tb ← tables d !! t;
      Some (<[t := mkTable [] (table_serial tb)]> (tables d), executed d,
            mkResult [] (length (table_rows tb)))
  | DropTableIfExists t =>
      Some (delete t (tables d), executed d, result_of [])
  | Script sql =>
      if accepts (executed d) sql
      then Some (tables d, executed d ++ [sql], result_of [])
      else None
  end.

(** [await db.query(...)] *)
Definition query (q : Query) : Eff QueryResult := λ w,
  let d := database w in
  match answer q d with
  | Some (tbs, ex, res) =>
      (Ok res, set_database (mkDB tbs ex (S (clock d)) (issued d ++ [q])) w)
  | None =>
      (Throw (QueryError q),
       set_database (mkDB (tables d) (executed d) (S (clock d)) (issued d ++ [q])) w)
  end.

(** The handle [db: Pool|null] the actions receive. *)
Inductive Pool := pool.

(** [node_migrator_${type}s] *)
Definition table_of (type : string) : string := "node_migrator_" +:+ type +:+ "s".

(** *** migrateUp *)

(** The [for (const file of files)] loop of [migrateUp]. *)
Fixpoint migrateUp_loop (scriptsDir : Path) (type : string) (files : list string)
  : Eff unit :=
  match files with
  | [] => mret ()
  | file :: files' =>
      migrationScripts ← readFileSync scriptsDir file;
      let sql := extractUp migrationScripts in
      _ ← query (Script sql);
      let version := version_of file in
      _ ← query (InsertVersion (table_of type) version);
      migrateUp_loop scriptsDir type files'
  end.

(** The files [migrateUp] keeps from a directory listing, sorted. *)
Definition pending (versions names : list string) : list string :=
  Js.sort (List.filter (λ file,
             let isVersion := Js.includes versions (version_of file) in
             negb isVersion && Js.endsWith file ".sql") names).

Definition migrateUp (db : option Pool) (scriptsDir : Path) (type : string)
  : World → Outcome * World :=
  match db with
  | None => throws ConnectionRequired
  | Some _ =>
      try_exit "Migration UP failed: " (
        res ← query (SelectVersions (table_of type));
        let versions := version <$> rows res in
        names ← readdirSync scriptsDir;
        let files := pending versions names in
        migrateUp_loop scriptsDir type files)
  end.

(** *** migrateDown *)

(** [names.find((file) => file.startsWith(`${version}_`) && file.endsWith('.sql'))] *)
Definition find_script (v : string) (names : list string) : option string :=
  List.find (λ file, Js.startsWith file (v +:+ "_") && Js.endsWith file ".sql") names.

Definition migrateDown (db : option Pool) (scriptsDir : Path) (type : string)
  : World → Outcome * World :=
  if decide (type = "seed") then throws SeederCannotBeReverted
  else
    match db with
    | None => throws ConnectionRequired
    | Some _ =>
        try_exit "Migration DOWN failed: " (
          res ← query (SelectLatestVersion (table_of type));
          row ← from_option mret (throw UndefinedRow) (rows res !! 0%nat);
          let version := version row in
          names ← readdirSync scriptsDir;
          match find_script version names with
          | None => throw (ScriptNotFound version)
          | Some file =>
              migrationScripts ← readFileSync scriptsDir file;
              let sql := extractDown migrationScripts in
              _ ← query (Script sql);
              _ ← query (DeleteVersion (table_of type) version);
              mret ()
          end)
    end.

(** *** migrateReset *)

(** The second [for (const file of scripts)] loop of [migrateReset]. *)
Fixpoint migrateReset_loop (scriptsDir : Path) (scripts : list string) : Eff unit :=
  match scripts with
  | [] => mret ()
  | file :: scripts' =>
      migrationScripts ← readFileSync scriptsDir file;
      let sql := extractDown migrationScripts in
      _ ← query (Script sql);
      migrateReset_loop scriptsDir scripts'
  end.

(** The files [migrateReset] keeps from a directory listing, sorted and
    reversed. *)
Definition applied_files (versions names : list string) : list string :=
  reverse (Js.sort (List.filter (λ file,
             let isVersion := Js.includes versions (version_of file) in
             isVersion && Js.endsWith file ".sql") names)).

Definition migrateReset (db : option Pool) (scriptsDir : Path) (type : string)
  : World → Outcome * World :=
  match db with
  | None => throws ConnectionRequired
  | Some _ =>
      try_exit "Migration DOWN failed: " (
        if decide (type = "seed") then
          _ ← query (DropTableIfExists "node_migrator_seeds");
          mret ()
        else
          res ← query (SelectVersions (table_of type));
          let versions := version <$> rows res in
          names ← readdirSync scriptsDir;
          let files := applied_files versions names in
          (* the first loop: [scripts.push(file)] and
             [availableVersions.push(file.split('_')[0])] under
             [if (files.includes(file))] *)
          let scripts := List.filter (λ file, Js.includes files file) files in
          let availableVersions := version_of <$> scripts in
          if decide (length scripts ≠ rowCount res) then
            let missingVersions :=
              List.filter (λ v, negb (Js.includes availableVersions v)) versions in
            throw (MissingVersion missingVersions)
          else
            _ ← migrateReset_loop scriptsDir scripts;
            _ ← query (DeleteAll (table_of type));
            _ ← query (DropTableIfExists "node_migrator_seeds");
            mret ())
  end.

End Engine.

(** *** generateMigration *)

Definition is_line_terminator (c : ascii) : bool :=
  bool_decide (c = "010"%char) || bool_decide (c = "013"%char).

(** What is left of a line after its last character other than a line
    terminator. *)
Fixpoint after_line (s : string) : string :=
  match s with
  | "" => ""
  | String c s' => if is_line_terminator c then s else after_line s'
  end.

(** [s.replace(/\..+/, '')]: the first dot that is followed by a character
    of the same line is removed together with the rest of that line. *)
Fixpoint replace_dot_rest (s : string) : string :=
  match s with
  | "" => ""
  | String c s' =>
      if bool_decide (c = "."%char)
      then match s' with
           | "" => String c ""
           | String c' s'' =>
               if is_line_terminator c' then String c (replace_dot_rest s')
               else after_line s''
           end
      else String c (replace_dot_rest s')
  end.

Definition is_digit (c : ascii) : bool :=
  bool_decide (is_Some (Ascii.is_nat c)).

(** [s.replace(/[^0-9]/g, '')] *)
Fixpoint replace_non_digits (s : string) : string :=
  match s with
  | "" => ""
  | String c s' =>
      if is_digit c then String c (replace_non_digits s') else replace_non_digits s'
  end.

Definition TEMPLATE : string :=
"-- +migrator UP
-- +migrator statement BEGIN

-- +migrator statement END


-- +migrator DOWN
-- +migrator statement BEGIN

-- +migrator statement END
".

(** [iso.replace(/\..+/, '').replace(/[^0-9]/g, '')] *)
Definition timestamp_of (iso : string) : string :=
  replace_non_digits (replace_dot_rest iso).

(** [`${timestamp}_${name}.sql`], what [generateMigration] joins to the
    scripts directory. *)
Definition script_name (timestamp name : string) : string :=
  timestamp +:+ "_" +:+ name +:+ ".sql".

Definition generateMigration (scriptsDir : Path) (name type : string)
  : World → Outcome * World :=
  if decide (String.length name < 1) then throws NameRequired
  else
    no_try (
      iso ← toISOString_now;
      let timestamp := timestamp_of iso in
      let migrationPath := join scriptsDir (script_name timestamp name) in
      there ← existsSync scriptsDir;
      _ ← (if negb there then mkdirSync_recursive scriptsDir else mret ());
      let migrationScripts := TEMPLATE in
      writeFileSync (dirname migrationPath) (basename migrationPath)
        migrationScripts).

(** *** runMigrations *)

(** [runMigrations], from the four values [getArg] has read off the command
    line to the exit code of the process. The pool is created without
    talking to the server, which is taken to be reachable. The scripts
    directory is [db], the driver and the kind below the working directory,
    the driver being the name of a directory. *)
Definition runMigrations (accepts : list string → string → bool) (cwd : Path)
    (action driver type name : string) : World → nat * World := λ w,
  if negb (Js.includes ["migration"; "seed"] type) then (1, w)
  else if bool_decide (action = "new") && bool_decide (type = "seed")
          && bool_decide (name = "")
  then (1, w)
  else
    let connect : Eff (option Pool) :=
      if bool_decide (action ≠ "new")
      then _ ← query accepts (CreateTableIfNotExists (table_of type)); mret (Some pool)
      else mret None in
    match connect w with
    | (Throw e, w1) => (1, w1)              (* catch: 'Migration failed: ' *)
    | (Ok pg, w1) =>
        let scriptsDir :=
          cwd ++ ["db"; driver;
                  if bool_decide (type = "migration") then "migration" else "seed"] in
        let chosen :=
          if bool_decide (action = "up") then Some (migrateUp accepts pg scriptsDir type)
          else if bool_decide (action = "down")
               then Some (migrateDown accepts pg scriptsDir type)
          else if bool_decide (action = "reset")
               then Some (migrateReset accepts pg scriptsDir type)
          else if bool_decide (action = "new")
               then Some (generateMigration scriptsDir name type)
          else None in
        match chosen with
        | None => (1, w1)                   (* default: process.exit(1) *)
        | Some act =>
            match act w1 with
            | (Returned, w2) => (0, w2)     (* finally: process.exit(0) *)
            | (Threw e, w2) => (1, w2)      (* catch: 'Migration failed: ' *)
            | (Exited code _ _, w2) => (code, w2)
            end
        end
    end.

(** ** Vocabulary of the properties *)

(** The UP and DOWN bodies of a file of a directory. *)
Definition up_body (dir : Dir) (file : string) : string :=
  extractUp (default "" (dir !! file)).

Definition down_body (dir : Dir) (file : string) : string :=
  extractDown (default "" (dir !! file)).

(** The versions recorded in the ledger of a kind, in table order. *)
Definition applied (type : string) (d : DB) : list string :=
  match tables d !! table_of type with
  | Some tb => row_version <$> table_rows tb
  | None => []
  end.

(** The scripts of a directory: its entries that end in [.sql]. *)
Definition scripts_of (dir : Dir) : list string :=
  List.filter (λ file, Js.endsWith file ".sql") (entries dir).

(** The world after a statement that the server has received, with the
    tables and executed scripts it leaves. *)
Definition after (q : Query) (tbs : gmap string Table) (ex : list string)
    (w : World) : World :=
  let d := database w in
  set_database (mkDB tbs ex (S (clock d)) (issued d ++ [q])) w.

(** The statements a successful pass of [migrateUp] over [files] sends. *)
Definition up_statements (type : string) (dir : Dir) (files : list string)
  : list Query :=
  files ≫= λ f, [Script (up_body dir f); InsertVersion (table_of type) (version_of f)].

Section Acceptance.

Variable accepts : list string → string → bool.

(** The server accepts the scripts [sqls] one after the other, having
    executed [h] before. *)
Fixpoint all_accepted (h : list string) (sqls : list string) : bool :=
  match sqls with
  | [] => true
  | sql :: sqls' => accepts h sql && all_accepted (h ++ [sql]) sqls'
  end.

(** [n] invocations of Down in a row, stopping at the first that does not
    return. *)
Fixpoint migrateDown_times (n : nat) (scriptsDir : Path) (type : string)
    (w : World) : Outcome * World :=
  match n with
  | O => (Returned, w)
  | S n' =>
      match migrateDown accepts (Some pool) scriptsDir type w with
      | (Returned, w') => migrateDown_times n' scriptsDir type w'
      | stopped => stopped
      end
  end.

End Acceptance.

(** The DOWN body Down runs for a version: that of the script it finds. *)
Definition down_of (dir : Dir) (v : string) : string :=
  down_body dir (default "" (find_script v (entries dir))).

(** [a] was recorded before [b]. *)
Definition older (a b : Row) : Prop := row_created_at a < row_created_at b.

(** The rows of a ledger table are in the order in which they were
    recorded, and all of them were recorded in the past. *)
Definition recorded_in_order (d : DB) (tb : Table) : Prop :=
  StronglySorted older (table_rows tb) ∧
  Forall (λ r, row_created_at r < clock d) (table_rows tb).

(** The statements a pass of [migrateReset] over [scripts] sends. *)
Definition down_statements (dir : Dir) (scripts : list string) : list Query :=
  (λ f, Script (down_body dir f)) <$> scripts.

(** ** Occurrences of a marker in a text *)

(** [m] occurs somewhere in [s]. *)
Definition occurs (m s : string) : Prop := ∃ a b, s = a +:+ m +:+ b.

(** [s] is [pre], then [m], then [rest], and this is the leftmost occurrence
    of [m] in [s]: inside [pre +:+ m] the marker occurs only at the end. *)
Definition first_split (m s pre rest : string) : Prop :=
  s = pre +:+ m +:+ rest ∧ ∀ a b, pre +:+ m = a +:+ m +:+ b → b = "".

(** The ways of cutting a text in two. *)
Fixpoint cuts (s : string) : list (string * string) :=
  ("", s) :: match s with
             | "" => []
             | String c s' => (λ xy, (String c xy.1, xy.2)) <$> cuts s'
             end.

Definition markers : list string := [UP_MARKER; DOWN_MARKER].

(** ** Example worlds *)

Definition example_dir : Path := ["srv"; "app"; "db"; "postgres"; "migration"].

Definition init_sql : string := "-- +migrator UP
CREATE TABLE t(id int);
-- +migrator DOWN
DROP TABLE t;
".

Definition users_sql : string := "-- +migrator UP
CREATE TABLE users(id int);
-- +migrator DOWN
DROP TABLE users;
".

Definition broken_sql : string := "-- +migrator UP
CREATE TABEL oops;
-- +migrator DOWN
".

(** Two scripts and a file that is not one. *)
Definition two_scripts : Dir :=
  {[ "20240101000000_init.sql" := init_sql;
     "20240102000000_users.sql" := users_sql;
     "README.md" := "notes" ]}.

(** A script the server will reject between two it accepts. *)
Definition three_scripts : Dir :=
  {[ "20240101000000_init.sql" := init_sql;
     "20240102000000_broken.sql" := broken_sql;
     "20240103000000_users.sql" := users_sql ]}.

(** Two scripts of one version, as two calls of New in one second leave
    them. *)
Definition twin_scripts : Dir :=
  {[ "20240101000000_init.sql" := init_sql;
     "20240101000000_users.sql" := users_sql ]}.

(** A script saved under the name New would choose at [example_date]. *)
Definition authored_scripts : Dir :=
  {[ "20240115143022_users.sql" := users_sql ]}.

Definition example_date : string := "2024-01-15T14:30:22.123Z".

(** A world with the given rows in the migrations ledger, one row in the
    seeds ledger, and the given files in [example_dir]. *)
Definition world_of (ledger : list Row) (files : Dir) : World :=
  mkWorld
    (mkDB {[ "node_migrator_migrations" := mkTable ledger (S (length ledger));
             "node_migrator_seeds" := mkTable [mkRow 1 "20231231000000" 1] 2 ]}
          [] 10 [])
    {[ example_dir := files ]}
    example_date.

Definition init_row : Row := mkRow 1 "20240101000000" 3.
Definition users_row : Row := mkRow 2 "20240102000000" 5.
Definition orphan_row : Row := mkRow 2 "20240103000000" 5.

(** A second row of the version of [init_row], as Up leaves it behind two
    scripts of one version. *)
Definition init_again_row : Row := mkRow 2 "20240101000000" 5.

(** The ledger holds a version that has no script, and the directory two
    scripts of the other version. *)
Definition twin_world : World := world_of [init_row; orphan_row] twin_scripts.

(** A server that accepts everything, and one that rejects what contains
    the word TABEL. *)
Definition accept_all : list string → string → bool := λ _ _, true.

Definition reject_typo : list string → string → bool :=
  λ _ sql, bool_decide (length (Js.split sql "TABEL") = 1).

(** A server that rejects what names the table [t]. *)
Definition reject_table_t : list string → string → bool :=
  λ _ sql, bool_decide (length (Js.split sql "TABLE t") = 1).

(** A database without any ledger, beside the two scripts. *)
Definition fresh_world : World :=
  mkWorld (mkDB ∅ [] 0 []) {[ example_dir := two_scripts ]} example_date.

(** ** The command line *)

(** [getArg(key, defaultValue)] over [process.argv]: the first argument
    that starts with [--key=], cut in pieces at every [=]; the piece taken
    is the second. *)
Definition getArg (argv : list string) (key defaultValue : string) : string :=
  match List.find (λ a, Js.startsWith a ("--" +:+ key +:+ "=")) argv with
  | Some arg => default "" (Js.split arg "=" !! 1%nat)
  | None => defaultValue
  end.

(** The four [getArg] calls at the head of [runMigrations]. *)
Definition runMigrations_argv (accepts : list string → string → bool) (cwd : Path)
    (argv : list string) : World → nat * World :=
  let action := getArg argv "action" "up" in
  let driver := getArg argv "driver" "postgres" in
  let type := getArg argv "type" "migration" in
  let name := getArg argv "name" "" in
  runMigrations accepts cwd action driver type name.

(** Neither marker occurs in [s]. *)
Definition no_markers (s : string) : Prop := ∀ m, m ∈ markers → ¬ occurs m s.

(** [s] is the name of a file or of a directory: a single segment of a
    path, other than [.] and [..]. *)
Definition is_name (s : string) : Prop :=
  s ≠ "" ∧ s ≠ "." ∧ s ≠ ".." ∧ ¬ occurs "/" s.

(** [s] is made of decimal digits. *)
Definition all_digits (s : string) : Prop :=
  Forall (λ c, is_digit c = true) (String.list_ascii_of_string s).

(** [s] has no line terminator. *)
Definition one_line (s : string) : Prop :=
  Forall (λ c, is_line_terminator c = false) (String.list_ascii_of_string s).

(** ** Invariants and frames *)

(** The table a statement names, if it names one. *)
Definition query_table (q : Query) : option string :=
  match q with
  | CreateTableIfNotExists t | SelectVersions t | SelectLatestVersion t
  | InsertVersion t _ | DeleteVersion t _ | DeleteAll t | DropTableIfExists t => Some t
  | Script _ => None
  end.

(** The statements of an action of a kind name the ledger of the kind or no
    table at all. *)
Definition of_kind (type : string) (q : Query) : Prop :=
  query_table q = None ∨ query_table q = Some (table_of type).

(** A run keeps [P]: what holds of the world before holds of it after,
    however the run ends. *)
Definition keeps {R : Type} (P : World → Prop) (run : World → R * World) : Prop :=
  ∀ w, P w → P (run w).2.

(** The ids of a ledger table are increasing and below the next value of
    the sequence, and its rows are in the order of their recording. *)
Definition ledger_wf (d : DB) (tb : Table) : Prop :=
  recorded_in_order d tb ∧
  StronglySorted (λ a b, row_id a < row_id b) (table_rows tb) ∧
  Forall (λ r, row_id r < table_serial tb) (table_rows tb).

Definition db_wf (d : DB) : Prop :=
  ∀ t tb, tables d !! t = Some tb → ledger_wf d tb.

(** * Properties *)

(** ** Strings *)

Section Strings.

Implicit Types s t p m : string.

Lemma str_app_nil_l s : "" +:+ s = s.
Proof. reflexivity. Qed.

Lemma str_app_cons c s t : String c s +:+ t = String c (s +:+ t).
Proof. reflexivity. Qed.

Lemma str_app_nil_r s : s +:+ "" = s.
Proof. induction s as [|c s IH]; [done|]. by rewrite str_app_cons, IH. Qed.

Lemma str_app_assoc s t p : (s +:+ t) +:+ p = s +:+ t +:+ p.
Proof. induction s as [|c s IH]; [done|]. by rewrite !str_app_cons, IH. Qed.

Lemma str_length_app s t :
  String.length (s +:+ t) = String.length s + String.length t.
Proof. induction s as [|c s IH]; [done|]. rewrite str_app_cons. simpl. by rewrite IH. Qed.

Lemma str_length_zero s : String.length s = 0 → s = "".
Proof. by destruct s. Qed.

Lemma str_app_eq_nil s t : s +:+ t = "" → s = "" ∧ t = "".
Proof. destruct s; [done|]. by rewrite str_app_cons. Qed.

(** Two prefixes of one text: the shorter is a prefix of the longer. *)
Lemma str_app_eq_app_le s1 t1 s2 t2 :
  s1 +:+ t1 = s2 +:+ t2 → String.length s1 ≤ String.length s2 →
  ∃ x, s2 = s1 +:+ x ∧ t1 = x +:+ t2.
Proof.
  revert s2. induction s1 as [|c s1 IH]; intros s2 Heq Hlen.
  - exists s2. by rewrite str_app_nil_l in *.
  - destruct s2 as [|c2 s2]; [simpl in Hlen; lia|].
    rewrite !str_app_cons in Heq. injection Heq as -> Heq.
    destruct (IH s2 Heq) as (x & -> & ->); [simpl in Hlen; lia|].
    by exists x.
Qed.

Lemma startsWith_app p s : Js.startsWith (p +:+ s) p = true.
Proof.
  induction p as [|c p IH]; [by destruct s|].
  rewrite str_app_cons. simpl. by rewrite decide_True.
Qed.

Lemma startsWith_inv s p : Js.startsWith s p = true → ∃ r, s = p +:+ r.
Proof.
  revert s. induction p as [|c p IH]; intros s H.
  - by exists s.
  - destruct s as [|b s]; [done|]. simpl in H.
    destruct (decide (c = b)) as [->|]; [|done].
    destruct (IH _ H) as [r ->]. by exists r.
Qed.

Lemma occurs_app_l m s t : occurs m s → occurs m (s +:+ t).
Proof.
  intros (a & b & ->). exists a, (b +:+ t). by rewrite !str_app_assoc.
Qed.

Lemma occurs_cons m c s : occurs m s → occurs m (String c s).
Proof. intros (a & b & ->). by exists (String c a), b. Qed.

Lemma not_occurs_nil m : m ≠ "" → ¬ occurs m "".
Proof.
  intros Hm (a & b & H). symmetry in H.
  apply str_app_eq_nil in H as [_ H]. by apply str_app_eq_nil in H as [? _].
Qed.

Lemma first_split_nil m rest : first_split m (m +:+ rest) "" rest.
Proof.
  split; [done|]. intros a b H. rewrite str_app_nil_l in H.
  apply (f_equal String.length) in H. rewrite !str_length_app in H.
  apply str_length_zero. lia.
Qed.

Lemma first_split_cons m c s pre rest :
  Js.startsWith (String c s) m = false →
  first_split m s pre rest → first_split m (String c s) (String c pre) rest.
Proof.
  intros Hno [-> Hfirst]. split; [done|]. intros a b H.
  destruct a as [|c' a].
  - rewrite str_app_nil_l in H. exfalso.
    rewrite <- str_app_cons, <- str_app_assoc, H, str_app_assoc, startsWith_app in Hno.
    done.
  - rewrite !str_app_cons in H. injection H as _ H. eauto.
Qed.

Lemma first_split_uncons m c s pre rest :
  first_split m (String c s) (String c pre) rest → first_split m s pre rest.
Proof.
  intros [Heq Hfirst]. rewrite str_app_cons in Heq. injection Heq as ->.
  split; [done|]. intros a b H. apply (Hfirst (String c a) b).
  by rewrite !str_app_cons, H.
Qed.

Lemma first_split_not_occurs m s pre rest :
  m ≠ "" → first_split m s pre rest → ¬ occurs m pre.
Proof.
  intros Hm [_ Hfirst] (a & b & ->).
  specialize (Hfirst a (b +:+ m)). rewrite !str_app_assoc in Hfirst.
  by destruct (str_app_eq_nil _ _ (Hfirst eq_refl)).
Qed.

Lemma first_split_startsWith m s pre rest c pre' :
  first_split m s pre rest → pre = String c pre' → Js.startsWith s m = false.
Proof.
  intros [-> Hfirst] ->. destruct (Js.startsWith _ m) eqn:Hs; [|done].
  apply startsWith_inv in Hs as [r Hr]. rewrite <- str_app_assoc in Hr.
  symmetry in Hr. apply str_app_eq_app_le in Hr as (x & Hx & _).
  - pose proof (Hfirst "" x Hx) as ->.
    apply (f_equal String.length) in Hx.
    rewrite str_app_nil_r, str_length_app in Hx. simpl in Hx. lia.
  - rewrite str_length_app. lia.
Qed.

(** The leftmost occurrence exists as soon as there is one. *)
Lemma first_or_absent m s :
  m ≠ "" → ¬ occurs m s ∨ ∃ pre rest, first_split m s pre rest.
Proof.
  intros Hm. induction s as [|c s IH].
  - left. by apply not_occurs_nil.
  - destruct (Js.startsWith (String c s) m) eqn:Hs.
    + right. apply startsWith_inv in Hs as [r ->].
      exists "", r. apply first_split_nil.
    + destruct IH as [IH|(pre & rest & IH)].
      * left. intros ([|c' a] & b & H).
        -- rewrite str_app_nil_l in H. by rewrite H, startsWith_app in Hs.
        -- rewrite str_app_cons in H. injection H as _ ->. apply IH. by exists a, b.
      * right. exists (String c pre), rest. by apply first_split_cons.
Qed.

(** *** [split] *)

Lemma split_go_skip sep x rest :
  Js.split_go sep (String.length x) (x +:+ rest) = Js.split_go sep 0 rest.
Proof.
  induction x as [|c x IH]; [done|]. rewrite str_app_cons. simpl. apply IH.
Qed.

Lemma split_go_absent m s :
  ¬ occurs m s → Js.split_go m 0 s = [s].
Proof.
  induction s as [|c s IH]; intros Hno; [done|]. cbn [Js.split_go].
  destruct (Js.startsWith (String c s) m) eqn:Hs.
  - exfalso. apply Hno. apply startsWith_inv in Hs as [r ->].
    by exists "", r.
  - rewrite IH; [done|]. intros H. by apply Hno, occurs_cons.
Qed.

Lemma split_go_first m s pre rest :
  m ≠ "" → first_split m s pre rest →
  Js.split_go m 0 s = pre :: Js.split_go m 0 rest.
Proof.
  intros Hm. revert s. induction pre as [|c pre IH]; intros s Hsplit.
  - destruct Hsplit as [-> _]. rewrite str_app_nil_l.
    destruct m as [|c m]; [done|]. rewrite str_app_cons.
    cbn [Js.split_go]. rewrite <- str_app_cons, startsWith_app.
    replace (String.length (String c m) - 1) with (String.length m)
      by (simpl; lia).
    by rewrite split_go_skip.
  - pose proof (first_split_startsWith _ _ _ _ _ _ Hsplit eq_refl) as Hs.
    destruct s as [|c' s]; [by destruct Hsplit|].
    assert (c' = c) as ->.
    { destruct Hsplit as [H _]. rewrite str_app_cons in H. by injection H. }
    cbn [Js.split_go]. rewrite Hs.
    by rewrite (IH s (first_split_uncons _ _ _ _ _ Hsplit)).
Qed.

Lemma split_absent m s : m ≠ "" → ¬ occurs m s → Js.split s m = [s].
Proof. intros Hm H. destruct m; [done|]. by apply split_go_absent. Qed.

Lemma split_first m s pre rest :
  m ≠ "" → first_split m s pre rest → Js.split s m = pre :: Js.split rest m.
Proof. intros Hm H. destruct m; [done|]. by apply split_go_first. Qed.

(** The first piece of a split: the text before the leftmost separator,
    the whole text when there is none. *)
Lemma split_head m s :
  m ≠ "" →
  ∃ piece tail, Js.split s m !! 0%nat = Some piece ∧ s = piece +:+ tail ∧
    ¬ occurs m piece ∧ (tail = "" ∨ Js.startsWith tail m = true).
Proof.
  intros Hm. destruct (first_or_absent m s Hm) as [H|(pre & rest & H)].
  - exists s, "". rewrite split_absent by done. by rewrite str_app_nil_r; auto.
  - exists pre, (m +:+ rest). rewrite (split_first _ _ _ _ Hm H).
    destruct H as [Heq Hf]. repeat split; [done| |].
    + by eapply first_split_not_occurs.
    + right. apply startsWith_app.
Qed.

End Strings.

(** ** The DOWN body of a script *)

Lemma or_empty_Some x : Js.or_empty (Some x) = x.
Proof. reflexivity. Qed.

Lemma UP_MARKER_nonempty : UP_MARKER ≠ "".
Proof. done. Qed.

Lemma DOWN_MARKER_nonempty : DOWN_MARKER ≠ "".
Proof. done. Qed.

(** Without a DOWN marker there is no DOWN body. *)
Lemma extractDown_absent s : ¬ occurs DOWN_MARKER s → extractDown s = "".
Proof.
  intros H. unfold extractDown.
  by rewrite (split_absent _ _ DOWN_MARKER_nonempty H).
Qed.

(** With a DOWN marker, the DOWN body starts right after its leftmost
    occurrence and stops before the next marker of either kind. *)
Lemma extractDown_present s pre rest :
  first_split DOWN_MARKER s pre rest →
  ∃ tail, rest = extractDown s +:+ tail ∧
    ¬ occurs DOWN_MARKER (extractDown s) ∧ ¬ occurs UP_MARKER (extractDown s) ∧
    (tail = "" ∨ Js.startsWith tail DOWN_MARKER = true
     ∨ Js.startsWith tail UP_MARKER = true).
Proof.
  intros Hs. unfold extractDown.
  rewrite (split_first _ _ _ _ DOWN_MARKER_nonempty Hs).
  destruct (split_head DOWN_MARKER rest DOWN_MARKER_nonempty)
    as (r1 & t1 & Hr1 & -> & Hno1 & Ht1).
  change ((pre :: ?l) !! 1%nat) with (l !! 0%nat). rewrite Hr1.
  destruct (split_head UP_MARKER r1 UP_MARKER_nonempty)
    as (r & t & Hr & -> & Hno & Ht).
  rewrite or_empty_Some, Hr, or_empty_Some.
  exists (t +:+ t1). rewrite str_app_assoc. split; [done|].
  split; [by intros H; apply Hno1, occurs_app_l|]. split; [done|].
  destruct Ht as [->|Ht].
  - rewrite str_app_nil_l. destruct Ht1 as [->|Ht1]; auto.
  - right; right. apply startsWith_inv in Ht as [x ->].
    rewrite str_app_assoc. apply startsWith_app.
Qed.

(** *** No marker overlaps another *)

Lemma elem_of_cuts x y : (x, y) ∈ cuts (x +:+ y).
Proof.
  induction x as [|c x IH]; [destruct y; by left|].
  rewrite str_app_cons. simpl. right.
  apply list_elem_of_fmap. by exists (x, y).
Qed.

(** No proper, non-empty end of a marker is the start of a text that starts
    with a marker. *)
Lemma markers_do_not_overlap m m' x y b c :
  m ∈ markers → m' ∈ markers → m = x +:+ y → x ≠ "" → y ≠ "" →
  y +:+ b = m' +:+ c → False.
Proof.
  intros Hm Hm' Hcut Hx Hy Heq.
  pose proof (elem_of_cuts x y) as Hin. rewrite <- Hcut in Hin. clear Hcut.
  unfold markers in Hm, Hm'.
  repeat (apply elem_of_cons in Hm as [->|Hm]); [| |by apply elem_of_nil in Hm];
    (repeat (apply elem_of_cons in Hm' as [->|Hm']); [| |by apply elem_of_nil in Hm']);
    vm_compute in Hin;
    repeat (apply elem_of_cons in Hin as [Hin|Hin];
            [injection Hin as -> ->; first [done | vm_compute in Heq; discriminate]|]);
    by apply elem_of_nil in Hin.
Qed.

(** A text without markers, followed by nothing or by a marker: no marker of
    the whole starts inside the first part. *)
Lemma first_marker r tail m a b :
  m ∈ markers → ¬ occurs m r →
  (tail = "" ∨ ∃ m', m' ∈ markers ∧ Js.startsWith tail m' = true) →
  r +:+ tail = a +:+ m +:+ b →
  String.length r ≤ String.length a.
Proof.
  intros Hm Hno Htail Heq.
  destruct (decide (String.length r ≤ String.length a)) as [|Hlt]; [done|].
  exfalso. symmetry in Heq.
  apply str_app_eq_app_le in Heq as (x & -> & Hx); [|lia].
  assert (x ≠ "") as Hxne.
  { intros ->. rewrite str_app_nil_r in Hlt. lia. }
  destruct (decide (String.length m ≤ String.length x)) as [Hle|Hshort].
  - apply str_app_eq_app_le in Hx as (z & -> & _); [|done].
    apply Hno. by exists a, z.
  - symmetry in Hx. apply str_app_eq_app_le in Hx as (y & -> & ->); [|lia].
    assert (y ≠ "") as Hyne.
    { intros ->. rewrite str_app_nil_r in Hshort. lia. }
    destruct Htail as [Htail|(m' & Hm' & Hstart)].
    + by apply str_app_eq_nil in Htail as [? _].
    + apply startsWith_inv in Hstart as [c Hc].
      by apply (markers_do_not_overlap (x +:+ y) m' x y b c).
Qed.

(** C2, as stated, fails: in a script whose DOWN section comes before its UP
    section, the DOWN body stops at the UP marker and is not the whole text
    after the DOWN marker. *)
Lemma extractDown_stops_at_up_marker :
  first_split DOWN_MARKER
    "-- +migrator DOWN;DROP TABLE t;-- +migrator UP;CREATE TABLE t(id int);"
    "" ";DROP TABLE t;-- +migrator UP;CREATE TABLE t(id int);"
  ∧ extractDown
      "-- +migrator DOWN;DROP TABLE t;-- +migrator UP;CREATE TABLE t(id int);"
    = ";DROP TABLE t;"
  ∧ extractDown
      "-- +migrator DOWN;DROP TABLE t;-- +migrator UP;CREATE TABLE t(id int);"
    ≠ ";DROP TABLE t;-- +migrator UP;CREATE TABLE t(id int);".
Proof.
  split; [|split].
  - exact (first_split_nil DOWN_MARKER
             ";DROP TABLE t;-- +migrator UP;CREATE TABLE t(id int);").
  - vm_compute. reflexivity.
  - vm_compute. discriminate.
Qed.

(** C2, amended: the DOWN body is empty when the DOWN marker is absent;
    otherwise it is the text after the leftmost DOWN marker up to, and not
    including, the next DOWN or UP marker, or up to the end of the file when
    no marker follows. *)
Theorem extractDown_spec s :
  (¬ occurs DOWN_MARKER s → extractDown s = "") ∧
  (∀ pre rest, first_split DOWN_MARKER s pre rest →
     ∃ tail, rest = extractDown s +:+ tail ∧
       (tail = "" ∨ Js.startsWith tail DOWN_MARKER = true
        ∨ Js.startsWith tail UP_MARKER = true) ∧
       ¬ occurs DOWN_MARKER (extractDown s) ∧
       ¬ occurs UP_MARKER (extractDown s) ∧
       (∀ m a b, m ∈ markers → rest = a +:+ m +:+ b →
                 String.length (extractDown s) ≤ String.length a)).
Proof.
  split; [apply extractDown_absent|]. intros pre rest Hs.
  destruct (extractDown_present s pre rest Hs) as (tail & Heq & HnoD & HnoU & Ht).
  exists tail. repeat (split; [done|]).
  intros m a b Hm Hocc. apply (first_marker _ tail m a b Hm).
  - unfold markers in Hm.
    repeat (apply elem_of_cons in Hm as [->|Hm]); [done..|].
    by apply elem_of_nil in Hm.
  - destruct Ht as [?|[Ht|Ht]]; [by left|right..].
    + exists DOWN_MARKER. split; [right; by left|done].
    + exists UP_MARKER. split; [by left|done].
  - by rewrite <- Heq.
Qed.

Lemma extractDown_spec_witness :
  ∃ tail, ";DROP TABLE t;-- +migrator UP;CREATE TABLE t(id int);"
          = extractDown "x-- +migrator DOWN;DROP TABLE t;-- +migrator UP;CREATE TABLE t(id int);" +:+ tail ∧
    (tail = "" ∨ Js.startsWith tail DOWN_MARKER = true
     ∨ Js.startsWith tail UP_MARKER = true).
Proof.
  destruct (extractDown_spec
    "x-- +migrator DOWN;DROP TABLE t;-- +migrator UP;CREATE TABLE t(id int);")
    as [_ H].
  destruct (H "x" ";DROP TABLE t;-- +migrator UP;CREATE TABLE t(id int);")
    as (tail & Heq & Ht & _).
  - apply (first_split_cons DOWN_MARKER "x" _ ""); [reflexivity|].
    exact (first_split_nil DOWN_MARKER
             ";DROP TABLE t;-- +migrator UP;CREATE TABLE t(id int);").
  - exists tail. split; assumption.
Defined.

(** ** Statements and their effects *)

Section EngineFacts.

Variable accepts : list string → string → bool.

Abbreviation query := (query accepts).
Abbreviation migrateUp_loop := (migrateUp_loop accepts).
Abbreviation migrateUp := (migrateUp accepts).
Abbreviation all_accepted := (all_accepted accepts).

Lemma bind_ok {A B} (m : Eff A) (f : A → Eff B) w a w' :
  m w = (Ok a, w') → (m ≫= f) w = f a w'.
Proof. intros H. unfold mbind, eff_bind. by rewrite H. Qed.

Lemma bind_throw {A B} (m : Eff A) (f : A → Eff B) w e w' :
  m w = (Throw e, w') → (m ≫= f) w = (Throw e, w').
Proof. intros H. unfold mbind, eff_bind. by rewrite H. Qed.

Lemma query_select t w tb :
  tables (database w) !! t = Some tb →
  query (SelectVersions t) w =
    (Ok (result_of (table_rows tb)),
     after (SelectVersions t) (tables (database w)) (executed (database w)) w).
Proof. intros H. unfold query, answer. by rewrite H. Qed.

Lemma query_select_missing t w :
  tables (database w) !! t = None →
  query (SelectVersions t) w =
    (Throw (QueryError (SelectVersions t)),
     after (SelectVersions t) (tables (database w)) (executed (database w)) w).
Proof. intros H. unfold query, answer. by rewrite H. Qed.

Lemma query_insert t v w tb :
  tables (database w) !! t = Some tb →
  query (InsertVersion t v) w =
    (Ok (mkResult [] 1),
     after (InsertVersion t v)
       (<[t := insert_row v (clock (database w)) tb]> (tables (database w)))
       (executed (database w)) w).
Proof. intros H. unfold query, answer. by rewrite H. Qed.

Lemma query_script_accepted sql w :
  accepts (executed (database w)) sql = true →
  query (Script sql) w =
    (Ok (result_of []),
     after (Script sql) (tables (database w)) (executed (database w) ++ [sql]) w).
Proof. intros H. unfold query, answer. by rewrite H. Qed.

Lemma query_script_rejected sql w :
  accepts (executed (database w)) sql = false →
  query (Script sql) w =
    (Throw (QueryError (Script sql)),
     after (Script sql) (tables (database w)) (executed (database w)) w).
Proof. intros H. unfold query, answer. by rewrite H. Qed.

Lemma readFileSync_ok scriptsDir dir file contents w :
  fs w !! scriptsDir = Some dir → dir !! file = Some contents →
  readFileSync scriptsDir file w = (Ok contents, w).
Proof. intros H1 H2. unfold readFileSync. by rewrite H1, H2. Qed.

Lemma readdirSync_ok scriptsDir dir w :
  fs w !! scriptsDir = Some dir →
  readdirSync scriptsDir w = (Ok (entries dir), w).
Proof. intros H. unfold readdirSync. by rewrite H. Qed.

Lemma versions_result_of rs :
  version <$> rows (result_of rs) = row_version <$> rs.
Proof. unfold result_of. simpl. by rewrite <- list_fmap_compose. Qed.

Lemma all_accepted_app h l1 l2 :
  all_accepted h (l1 ++ l2) = all_accepted h l1 && all_accepted (h ++ l1) l2.
Proof.
  revert h. induction l1 as [|x l1 IH]; intros h; simpl.
  - by rewrite app_nil_r.
  - by rewrite IH, <- (assoc_L (++)), andb_assoc.
Qed.

(** Either every script is accepted, or there is a first one that is not. *)
Lemma all_accepted_or_first_rejected h l :
  all_accepted h l = true ∨
  ∃ pre x rest, l = pre ++ x :: rest ∧ all_accepted h pre = true ∧
                 accepts (h ++ pre) x = false.
Proof.
  revert h. induction l as [|x l IH]; intros h; [by left|]. simpl.
  destruct (accepts h x) eqn:Hx.
  - destruct (IH (h ++ [x])) as [->|(pre & y & rest & -> & Hd & Hy)]; [by left|].
    right. exists (x :: pre), y, rest. simpl. rewrite Hx, Hd.
    by rewrite <- (assoc_L (++)) in Hy.
  - right. exists [], x, l. by rewrite app_nil_r.
Qed.

(** *** The loop of [migrateUp] *)

Lemma migrateUp_loop_cons scriptsDir type file files :
  migrateUp_loop scriptsDir type (file :: files) =
    (migrationScripts ← readFileSync scriptsDir file;
     _ ← query (Script (extractUp migrationScripts));
     _ ← query (InsertVersion (table_of type) (version_of file));
     migrateUp_loop scriptsDir type files).
Proof. reflexivity. Qed.

Lemma migrateUp_loop_ok scriptsDir type dir files : ∀ w tb,
  fs w !! scriptsDir = Some dir →
  tables (database w) !! table_of type = Some tb →
  (∀ f, f ∈ files → is_Some (dir !! f)) →
  all_accepted (executed (database w)) (up_body dir <$> files) = true →
  ∃ w' tb',
    migrateUp_loop scriptsDir type files w = (Ok (), w') ∧
    fs w' = fs w ∧ date_now w' = date_now w ∧
    tables (database w') = <[table_of type := tb']> (tables (database w)) ∧
    row_version <$> table_rows tb' =
      (row_version <$> table_rows tb) ++ (version_of <$> files) ∧
    executed (database w') = executed (database w) ++ (up_body dir <$> files) ∧
    issued (database w') = issued (database w) ++ up_statements type dir files.
Proof.
  induction files as [|f files IH]; intros w tb Hdir Htb Hin Hacc.
  - exists w, tb. simpl. rewrite insert_id by done. by rewrite !app_nil_r.
  - simpl in Hacc. apply andb_true_iff in Hacc as [Hf Hacc].
    destruct (Hin f) as [contents Hc]; [by left|].
    assert (up_body dir f = extractUp contents) as Hup
      by (unfold up_body; by rewrite Hc).
    rewrite Hup in Hf, Hacc.
    rewrite migrateUp_loop_cons.
    rewrite (bind_ok _ _ _ _ _ (readFileSync_ok _ _ _ _ _ Hdir Hc)).
    rewrite (bind_ok _ _ _ _ _ (query_script_accepted _ _ Hf)).
    erewrite bind_ok; [|by apply query_insert].
    set (w1 := after _ _ _ (after _ _ _ w)).
    destruct (IH w1 (insert_row (version_of f) (S (clock (database w))) tb))
      as (w' & tb' & Hrun & Hfs & Hdate & Htbs & Hvers & Hex & Hiss).
    + done.
    + subst w1. simpl. by rewrite lookup_insert_eq.
    + intros g Hg. apply Hin. by right.
    + done.
    + exists w', tb'. split; [done|]. rewrite Hfs, Hdate, Htbs, Hvers, Hex, Hiss.
      subst w1. simpl. rewrite insert_insert_eq, Hup, fmap_app.
      by rewrite <- !(assoc_L (++)).
Qed.

Lemma migrateUp_loop_rejected scriptsDir type dir f rest w :
  fs w !! scriptsDir = Some dir → is_Some (dir !! f) →
  accepts (executed (database w)) (up_body dir f) = false →
  migrateUp_loop scriptsDir type (f :: rest) w =
    (Throw (QueryError (Script (up_body dir f))),
     after (Script (up_body dir f))
       (tables (database w)) (executed (database w)) w).
Proof.
  intros Hdir [contents Hc] Hf.
  assert (up_body dir f = extractUp contents) as Hup
    by (unfold up_body; by rewrite Hc).
  rewrite Hup in *. rewrite migrateUp_loop_cons.
  rewrite (bind_ok _ _ _ _ _ (readFileSync_ok _ _ _ _ _ Hdir Hc)).
  by rewrite (bind_throw _ _ _ _ _ (query_script_rejected _ _ Hf)).
Qed.

Lemma migrateUp_loop_app scriptsDir type l1 l2 w :
  migrateUp_loop scriptsDir type (l1 ++ l2) w =
    match migrateUp_loop scriptsDir type l1 w with
    | (Ok _, w') => migrateUp_loop scriptsDir type l2 w'
    | (Throw e, w') => (Throw e, w')
    end.
Proof.
  revert w. induction l1 as [|f l1 IH]; intros w; [done|].
  rewrite <- app_comm_cons, !migrateUp_loop_cons. unfold mbind, eff_bind.
  destruct (readFileSync scriptsDir f w) as [[contents|e] w1]; [|done].
  destruct (query (Script (extractUp contents)) w1) as [[r|e] w2]; [|done].
  destruct (query (InsertVersion (table_of type) (version_of f)) w2)
    as [[r'|e] w3]; [|done].
  apply IH.
Qed.

(** *** The files [migrateUp] selects *)

Lemma elem_of_names (dir : Dir) f :
  f ∈ entries dir ↔ is_Some (dir !! f).
Proof.
  unfold entries. rewrite merge_sort_Permutation, list_elem_of_fmap. split.
  - intros ([g c] & -> & H). apply elem_of_map_to_list in H. by exists c.
  - intros [c H]. exists (f, c). by rewrite elem_of_map_to_list.
Qed.

Lemma elem_of_scripts_of (dir : Dir) f :
  f ∈ scripts_of dir ↔ is_Some (dir !! f) ∧ Js.endsWith f ".sql" = true.
Proof.
  unfold scripts_of. by rewrite list_elem_of_In, filter_In, <- list_elem_of_In, elem_of_names.
Qed.

Lemma includes_true arr x : Js.includes arr x = true ↔ x ∈ arr.
Proof. unfold Js.includes. apply bool_decide_eq_true. Qed.

Lemma includes_false arr x : Js.includes arr x = false ↔ x ∉ arr.
Proof. unfold Js.includes. apply bool_decide_eq_false. Qed.

Lemma elem_of_sort arr x : x ∈ Js.sort arr ↔ x ∈ arr.
Proof. unfold Js.sort. by rewrite merge_sort_Permutation. Qed.

Lemma elem_of_pending versions (dir : Dir) f :
  f ∈ pending versions (entries dir) ↔
  f ∈ scripts_of dir ∧ version_of f ∉ versions.
Proof.
  unfold pending. rewrite elem_of_sort, list_elem_of_In, filter_In.
  rewrite <- list_elem_of_In, elem_of_scripts_of, elem_of_names.
  rewrite andb_true_iff, negb_true_iff, includes_false. tauto.
Qed.




(** *** [migrateUp] as a whole *)

Lemma applied_lookup type d tb :
  tables d !! table_of type = Some tb → applied type d = row_version <$> table_rows tb.
Proof. intros H. unfold applied. by rewrite H. Qed.

(** After the [SELECT] and the directory listing, [migrateUp] is its loop
    over the pending files. *)
Lemma migrateUp_unfold w scriptsDir type dir tb :
  fs w !! scriptsDir = Some dir →
  tables (database w) !! table_of type = Some tb →
  migrateUp (Some pool) scriptsDir type w =
    try_exit "Migration UP failed: "
      (migrateUp_loop scriptsDir type
         (pending (applied type (database w)) (entries dir)))
      (after (SelectVersions (table_of type))
         (tables (database w)) (executed (database w)) w).
Proof.
  intros Hdir Htb. unfold migrateUp, try_exit.
  rewrite (bind_ok _ _ _ _ _ (query_select _ _ _ Htb)).
  erewrite bind_ok; [|by apply readdirSync_ok].
  by rewrite versions_result_of, (applied_lookup _ _ _ Htb).
Qed.

(** *** The order of the ledger rows *)

Lemma readFileSync_world scriptsDir file w : (readFileSync scriptsDir file w).2 = w.
Proof. unfold readFileSync. by repeat case_match. Qed.

Lemma query_script_world sql w :
  ∃ r ex, query (Script sql) w =
            (r, after (Script sql) (tables (database w)) ex w).
Proof.
  unfold query, answer. destruct (accepts (executed (database w)) sql); eauto.
Qed.

Lemma recorded_in_order_later d d' tb :
  clock d ≤ clock d' →
  recorded_in_order d tb → recorded_in_order d' tb.
Proof.
  intros Hle [Hs Hpast]. split; [done|].
  eapply Forall_impl; [exact Hpast|]. simpl. intros r Hr. lia.
Qed.

Lemma recorded_in_order_insert d d' tb v :
  clock d' = S (clock d) →
  recorded_in_order d tb →
  recorded_in_order d' (insert_row v (clock d) tb).
Proof.
  intros Hclock [Hs Hpast]. rewrite Forall_forall in Hpast.
  unfold recorded_in_order, insert_row. simpl. split.
  - apply StronglySorted_app. split; [|split; [done|repeat constructor]].
    intros x y Hx ->%list_elem_of_singleton. unfold older. simpl. by apply Hpast.
  - rewrite Hclock. apply Forall_app. split.
    + apply Forall_forall. intros r Hr. specialize (Hpast r Hr). lia.
    + apply Forall_singleton. simpl. lia.
Qed.

(** The loop of [migrateUp] appends rows in the order of their recording,
    however it ends. *)
Lemma migrateUp_loop_order scriptsDir type files : ∀ w tb,
  tables (database w) !! table_of type = Some tb →
  recorded_in_order (database w) tb →
  ∃ tb',
    tables (database (migrateUp_loop scriptsDir type files w).2) !! table_of type
      = Some tb' ∧
    recorded_in_order (database (migrateUp_loop scriptsDir type files w).2) tb'.
Proof.
  induction files as [|f files IH]; intros w tb Htb Hord; [by exists tb|].
  rewrite migrateUp_loop_cons. unfold mbind, eff_bind.
  pose proof (readFileSync_world scriptsDir f w) as Hread.
  destruct (readFileSync scriptsDir f w) as [[contents|e] w0];
    simpl in Hread; subst w0; [|by exists tb].
  destruct (query_script_world (extractUp contents) w) as (r & ex & ->).
  set (w1 := after _ _ ex w).
  assert (recorded_in_order (database w1) tb) as Hord1
    by (apply (recorded_in_order_later (database w)); [simpl; lia|done]).
  destruct r as [r|e]; [|by exists tb].
  rewrite (query_insert _ _ _ tb) by done.
  apply (IH _ (insert_row (version_of f) (clock (database w1)) tb)).
  - simpl. apply lookup_insert_eq.
  - by apply (recorded_in_order_insert (database w1)).
Qed.

(** Up keeps the rows of the ledger in the order of their recording. *)
Lemma migrateUp_order scriptsDir type w tb :
  tables (database w) !! table_of type = Some tb →
  recorded_in_order (database w) tb →
  ∃ tb',
    tables (database (migrateUp (Some pool) scriptsDir type w).2) !! table_of type
      = Some tb' ∧
    recorded_in_order (database (migrateUp (Some pool) scriptsDir type w).2) tb'.
Proof.
  intros Htb Hord. unfold migrateUp, try_exit.
  rewrite (bind_ok _ _ _ _ _ (query_select _ _ _ Htb)).
  set (w1 := after _ _ _ w).
  assert (recorded_in_order (database w1) tb) as Hord1
    by (apply (recorded_in_order_later (database w)); [simpl; lia|done]).
  unfold mbind, eff_bind, readdirSync.
  destruct (fs w1 !! scriptsDir) as [dir|]; [|by exists tb].
  destruct (migrateUp_loop_order scriptsDir type
              (pending (version <$> rows (result_of (table_rows tb)))
                 (entries dir)) w1 tb Htb Hord1) as (tb' & Htb' & Hord').
  exists tb'.
  by destruct (migrateUp_loop scriptsDir type _ w1) as [[[]|e] w2].
Qed.

(** An Up run in which the server accepts every pending UP body. *)
Lemma migrateUp_accepted w scriptsDir type dir tb :
  fs w !! scriptsDir = Some dir →
  tables (database w) !! table_of type = Some tb →
  let files := pending (applied type (database w)) (entries dir) in
  all_accepted (executed (database w)) (up_body dir <$> files) = true →
  ∃ w' tb',
    migrateUp (Some pool) scriptsDir type w = (Returned, w') ∧
    fs w' = fs w ∧
    tables (database w') = <[table_of type := tb']> (tables (database w)) ∧
    row_version <$> table_rows tb' =
      (row_version <$> table_rows tb) ++ (version_of <$> files) ∧
    executed (database w') = executed (database w) ++ (up_body dir <$> files) ∧
    issued (database w') =
      issued (database w)
      ++ SelectVersions (table_of type) :: up_statements type dir files.
Proof.
  intros Hdir Htb files Hacc.
  set (w1 := after (SelectVersions (table_of type))
               (tables (database w)) (executed (database w)) w).
  destruct (migrateUp_loop_ok scriptsDir type dir files w1 tb)
    as (w' & tb' & Hrun & Hfs & _ & Htbs & Hvers & Hex & Hiss); try done.
  { intros f Hf. by apply elem_of_pending, proj1, elem_of_scripts_of, proj1 in Hf. }
  exists w', tb'. split.
  { rewrite (migrateUp_unfold _ _ _ _ _ Hdir Htb). unfold try_exit.
    fold w1. fold files. by rewrite Hrun. }
  rewrite Hiss. subst w1. simpl. by rewrite <- (assoc_L (++)).
Qed.

(** An Up run in which the server accepts the UP bodies of [pre] and
    rejects that of the next pending file [fN]. *)
Lemma migrateUp_rejected w scriptsDir type dir tb pre fN post :
  fs w !! scriptsDir = Some dir →
  tables (database w) !! table_of type = Some tb →
  pending (applied type (database w)) (entries dir) = pre ++ fN :: post →
  all_accepted (executed (database w)) (up_body dir <$> pre) = true →
  accepts (executed (database w) ++ (up_body dir <$> pre)) (up_body dir fN) = false →
  ∃ w' tb',
    migrateUp (Some pool) scriptsDir type w =
      (Exited 1 "Migration UP failed: " (QueryError (Script (up_body dir fN))), w') ∧
    fs w' = fs w ∧
    tables (database w') = <[table_of type := tb']> (tables (database w)) ∧
    row_version <$> table_rows tb' =
      (row_version <$> table_rows tb) ++ (version_of <$> pre) ∧
    executed (database w') = executed (database w) ++ (up_body dir <$> pre) ∧
    issued (database w') =
      issued (database w)
      ++ SelectVersions (table_of type) :: up_statements type dir pre
      ++ [Script (up_body dir fN)].
Proof.
  intros Hdir Htb Hpend Hacc Hrej.
  assert (∀ f, f ∈ pre ++ fN :: post → is_Some (dir !! f)) as Hin.
  { intros f Hf. rewrite <- Hpend in Hf.
    by apply elem_of_pending, proj1, elem_of_scripts_of, proj1 in Hf. }
  set (w1 := after (SelectVersions (table_of type))
               (tables (database w)) (executed (database w)) w).
  destruct (migrateUp_loop_ok scriptsDir type dir pre w1 tb)
    as (w2 & tb' & Hrun & Hfs & _ & Htbs & Hvers & Hex & Hiss); try done.
  { intros f Hf. apply Hin, elem_of_app. by left. }
  eexists _, tb'. split.
  { rewrite (migrateUp_unfold _ _ _ _ _ Hdir Htb). unfold try_exit.
    fold w1. rewrite Hpend, migrateUp_loop_app, Hrun.
    erewrite (migrateUp_loop_rejected _ _ dir); [done| | |].
    - by rewrite Hfs.
    - apply Hin, elem_of_app. right. by left.
    - by rewrite Hex. }
  simpl. rewrite Hfs, Htbs, Hex, Hiss. subst w1. simpl.
  by rewrite <- !(assoc_L (++)).
Qed.


(** C4. When the UP body of the pending file [fN] is rejected, the run
    exits with an error; the files before [fN] have been executed and
    recorded, one ledger row each; no statement is sent for the files
    after [fN], and no row is inserted for [fN] or for them: where pending
    files have pairwise distinct versions, the versions of [fN] and of the
    files after it are not in the ledger. *)
Theorem migrateUp_fail_fast w scriptsDir type dir pre fN post :
  fs w !! scriptsDir = Some dir →
  is_Some (tables (database w) !! table_of type) →
  pending (applied type (database w)) (entries dir) = pre ++ fN :: post →
  all_accepted (executed (database w)) (up_body dir <$> pre) = true →
  accepts (executed (database w) ++ (up_body dir <$> pre)) (up_body dir fN) = false →
  ∃ w',
    migrateUp (Some pool) scriptsDir type w =
      (Exited 1 "Migration UP failed: " (QueryError (Script (up_body dir fN))), w') ∧
    applied type (database w') =
      applied type (database w) ++ (version_of <$> pre) ∧
    executed (database w') = executed (database w) ++ (up_body dir <$> pre) ∧
    issued (database w') =
      issued (database w)
      ++ SelectVersions (table_of type) :: up_statements type dir pre
      ++ [Script (up_body dir fN)] ∧
    fs w' = fs w ∧
    (NoDup (version_of <$> pre ++ fN :: post) →
     ∀ g, g ∈ fN :: post → version_of g ∉ applied type (database w')).
Proof.
  intros Hdir [tb Htb] Hpend Hacc Hrej.
  destruct (migrateUp_rejected _ _ _ _ _ _ _ _ Hdir Htb Hpend Hacc Hrej)
    as (w' & tb' & Hrun & Hfs & Htbs & Hvers & Hex & Hiss).
  assert (applied type (database w') =
          applied type (database w) ++ (version_of <$> pre)) as HA'.
  { rewrite (applied_lookup _ _ tb'), Hvers, (applied_lookup _ _ _ Htb); [done|].
    rewrite Htbs. apply lookup_insert_eq. }
  exists w'. repeat (split; [done|]).
  intros Hnd g Hg. rewrite HA', elem_of_app. intros [Hv|Hv].
  - assert (g ∈ pending (applied type (database w)) (entries dir)) as Hp
      by (rewrite Hpend, elem_of_app; by right).
    by apply elem_of_pending in Hp as [_ Hp].
  - rewrite fmap_app in Hnd. apply NoDup_app in Hnd as (_ & Hdisj & _).
    apply (Hdisj _ Hv). apply list_elem_of_fmap. by exists g.
Qed.

(** C9. Whatever its outcome, an Up run sends an [INSERT] into the ledger
    only right after the UP body of the same file, and only when the
    server has accepted that body: the versions the run adds to the ledger
    are those of a prefix [recorded] of the pending files, whose UP bodies are
    exactly the scripts the run has executed. *)
Theorem migrateUp_records_only_executed db scriptsDir type w :
  let dir := default ∅ (fs w !! scriptsDir) in
  let w' := (migrateUp db scriptsDir type w).2 in
  ∃ recorded q1 q2,
    recorded `prefix_of` pending (applied type (database w)) (entries dir) ∧
    applied type (database w') =
      applied type (database w) ++ (version_of <$> recorded) ∧
    all_accepted (executed (database w)) (up_body dir <$> recorded) = true ∧
    executed (database w') = executed (database w) ++ (up_body dir <$> recorded) ∧
    issued (database w') =
      issued (database w) ++ q1 ++ up_statements type dir recorded ++ q2 ∧
    (∀ t v, InsertVersion t v ∉ q1 ++ q2).
Proof.
  intros dir w'. subst dir w'.
  destruct db as [[]|]; cycle 1.
  { exists [], [], []. simpl. rewrite !app_nil_r.
    repeat split; [apply prefix_nil|]. intros t v. apply not_elem_of_nil. }
  destruct (tables (database w) !! table_of type) as [tb|] eqn:Htb; cycle 1.
  { exists [], [SelectVersions (table_of type)], [].
    unfold migrateUp, try_exit.
    rewrite (bind_throw _ _ _ _ _ (query_select_missing _ _ Htb)). simpl.
    rewrite !app_nil_r. repeat split; [apply prefix_nil|].
    intros t v [H|H]%elem_of_cons; [done|by apply not_elem_of_nil in H]. }
  destruct (fs w !! scriptsDir) as [d|] eqn:Hdir; cycle 1.
  { exists [], [SelectVersions (table_of type)], [].
    unfold migrateUp, try_exit.
    rewrite (bind_ok _ _ _ _ _ (query_select _ _ _ Htb)).
    erewrite bind_throw; [|unfold readdirSync; simpl; by rewrite Hdir]. simpl.
    rewrite !app_nil_r. repeat split; [apply prefix_nil|].
    intros t v [H|H]%elem_of_cons; [done|by apply not_elem_of_nil in H]. }
  change (default ∅ (Some d)) with d.
  set (files := pending (applied type (database w)) (entries d)).
  destruct (all_accepted_or_first_rejected (executed (database w))
              (up_body d <$> files))
    as [Hacc|(ok & x & rest' & Heq & Hacc & Hrej)].
  - destruct (migrateUp_accepted _ _ _ _ _ Hdir Htb Hacc)
      as (w' & tb' & Hrun & _ & Htbs & Hvers & Hex & Hiss).
    exists files, [SelectVersions (table_of type)], [].
    rewrite Hrun. simpl. rewrite app_nil_r.
    split; [done|]. split.
    { rewrite (applied_lookup _ _ tb'), Hvers;
        [unfold files; by rewrite (applied_lookup _ _ _ Htb)|].
      rewrite Htbs. apply lookup_insert_eq. }
    repeat (split; [done|]).
    intros t v [H|H]%elem_of_cons; [done|by apply not_elem_of_nil in H].
  - apply fmap_app_inv in Heq as (pre & rest & -> & Hrest & Hfiles).
    symmetry in Hrest. apply fmap_cons_inv in Hrest as (fN & post & -> & -> & ->).
    destruct (migrateUp_rejected _ _ _ _ _ _ _ _ Hdir Htb Hfiles Hacc Hrej)
      as (w' & tb' & Hrun & _ & Htbs & Hvers & Hex & Hiss).
    exists pre, [SelectVersions (table_of type)], [Script (up_body d fN)].
    rewrite Hrun. simpl.
    split; [fold files; rewrite Hfiles; by apply prefix_app_r|]. split.
    { rewrite (applied_lookup _ _ tb'), Hvers; [by rewrite (applied_lookup _ _ _ Htb)|].
      rewrite Htbs. apply lookup_insert_eq. }
    repeat (split; [done|]).
    intros t v [H|[H|H]%elem_of_cons]%elem_of_cons;
      [done|done|by apply not_elem_of_nil in H].
Qed.

(** *** [migrateDown] *)

Abbreviation migrateDown := (migrateDown accepts).
Abbreviation migrateDown_times := (migrateDown_times accepts).

Global Instance newer_trans : Transitive newer.
Proof. intros a b c. unfold newer. lia. Qed.

Global Instance newer_total : Total newer.
Proof. intros a b. unfold newer. lia. Qed.

(** [ORDER BY created_at DESC LIMIT 1] returns the row that is strictly
    newer than all others, wherever it is in the table. *)
Lemma latest_first_head rs1 r rs2 :
  (∀ x, x ∈ rs1 ++ rs2 → older x r) →
  take 1 (latest_first (rs1 ++ r :: rs2)) = [r].
Proof.
  intros Hnew. unfold latest_first.
  pose proof (merge_sort_Permutation newer (rs1 ++ r :: rs2)) as Hp.
  pose proof (StronglySorted_merge_sort newer (rs1 ++ r :: rs2)) as Hs.
  destruct (merge_sort newer (rs1 ++ r :: rs2)) as [|x l].
  { apply Permutation_nil_l in Hp. by destruct rs1. }
  simpl. rewrite take_0. f_equal.
  assert (x ∈ rs1 ++ r :: rs2) as Hx by (rewrite <- Hp; by left).
  assert (r ∈ x :: l) as Hr by (rewrite Hp, elem_of_app; right; by left).
  apply StronglySorted_inv in Hs as [_ Hall]. rewrite Forall_forall in Hall.
  apply elem_of_app in Hx as [Hx|[->|Hx]%elem_of_cons]; [|done|].
  - assert (older x r) as Hlt by (apply Hnew, elem_of_app; by left).
    apply elem_of_cons in Hr as [->|Hr]; [done|].
    specialize (Hall r Hr). unfold newer, older in *. lia.
  - assert (older x r) as Hlt by (apply Hnew, elem_of_app; by right).
    apply elem_of_cons in Hr as [->|Hr]; [done|].
    specialize (Hall r Hr). unfold newer, older in *. lia.
Qed.

Lemma query_latest t w tb :
  tables (database w) !! t = Some tb →
  query (SelectLatestVersion t) w =
    (Ok (result_of (take 1 (latest_first (table_rows tb)))),
     after (SelectLatestVersion t) (tables (database w)) (executed (database w)) w).
Proof. intros H. unfold query, answer. by rewrite H. Qed.

Lemma query_delete t v w tb :
  tables (database w) !! t = Some tb →
  query (DeleteVersion t v) w =
    (Ok (mkResult [] (length (table_rows tb) - length (table_rows (delete_rows v tb)))),
     after (DeleteVersion t v)
       (<[t := delete_rows v tb]> (tables (database w))) (executed (database w)) w).
Proof. intros H. unfold query, answer. by rewrite H. Qed.

Lemma find_script_names v (dir : Dir) file :
  find_script v (entries dir) = Some file → is_Some (dir !! file).
Proof.
  intros H. apply find_some in H as [H _].
  by apply elem_of_names, list_elem_of_In.
Qed.

Lemma down_of_found (dir : Dir) v file :
  find_script v (entries dir) = Some file →
  down_of dir v = down_body dir file.
Proof. intros H. unfold down_of. by rewrite H. Qed.

(** [DELETE ... WHERE version = v] removes the one row of a version that
    no other row has. *)
Lemma delete_rows_unique rs1 r rs2 serial :
  (∀ x, x ∈ rs1 ++ rs2 → row_version x ≠ row_version r) →
  table_rows (delete_rows (row_version r) (mkTable (rs1 ++ r :: rs2) serial))
  = rs1 ++ rs2.
Proof.
  intros Hne. unfold delete_rows. simpl.
  assert (∀ l, (∀ x, x ∈ l → row_version x ≠ row_version r) →
    List.filter (λ r0, negb (bool_decide (row_version r0 = row_version r))) l = l)
    as Hkeep.
  { induction l as [|x l IH]; intros Hl; [done|]. simpl.
    rewrite bool_decide_eq_false_2 by (apply Hl; by left). simpl.
    rewrite IH; [done|]. intros y Hy. apply Hl. by right. }
  rewrite List.filter_app. simpl. rewrite bool_decide_eq_true_2 by done. simpl.
  rewrite !Hkeep; [done| |]; intros x Hx; apply Hne, elem_of_app; auto.
Qed.

(** One Down on a ledger whose newest row is [r]. *)
Lemma migrateDown_step w scriptsDir type dir tb rs1 r rs2 :
  type ≠ "seed" →
  fs w !! scriptsDir = Some dir →
  tables (database w) !! table_of type = Some tb →
  table_rows tb = rs1 ++ r :: rs2 →
  (∀ x, x ∈ rs1 ++ rs2 → older x r) →
  is_Some (find_script (row_version r) (entries dir)) →
  accepts (executed (database w)) (down_of dir (row_version r)) = true →
  ∃ w',
    migrateDown (Some pool) scriptsDir type w = (Returned, w') ∧
    fs w' = fs w ∧
    tables (database w') =
      <[table_of type := delete_rows (row_version r) tb]> (tables (database w)) ∧
    executed (database w') =
      executed (database w) ++ [down_of dir (row_version r)] ∧
    issued (database w') =
      issued (database w)
      ++ [SelectLatestVersion (table_of type);
          Script (down_of dir (row_version r));
          DeleteVersion (table_of type) (row_version r)].
Proof.
  intros Htype Hdir Htb Hrows Hnew [file Hfile] Hacc.
  destruct (find_script_names _ _ _ Hfile) as [contents Hc].
  rewrite (down_of_found _ _ _ Hfile) in *.
  assert (down_body dir file = extractDown contents) as Hbody
    by (unfold down_body; by rewrite Hc).
  rewrite Hbody in *.
  eexists. split.
  { unfold migrateDown, try_exit. rewrite decide_False by done.
    rewrite (bind_ok _ _ _ _ _ (query_latest _ _ _ Htb)).
    rewrite Hrows, (latest_first_head _ _ _ Hnew). simpl.
    erewrite (bind_ok (mret _)); [|done].
    erewrite bind_ok; [|by apply readdirSync_ok].
    cbn [version]. rewrite Hfile.
    erewrite bind_ok; [|by eapply readFileSync_ok].
    erewrite bind_ok; [|by apply query_script_accepted].
    erewrite bind_ok; [|by apply query_delete]. done. }
  simpl. by rewrite <- !(assoc_L (++)).
Qed.

(** Down on an empty ledger. *)
Lemma migrateDown_empty w scriptsDir type tb :
  type ≠ "seed" →
  tables (database w) !! table_of type = Some tb →
  table_rows tb = [] →
  migrateDown (Some pool) scriptsDir type w =
    (Exited 1 "Migration DOWN failed: " UndefinedRow,
     after (SelectLatestVersion (table_of type))
       (tables (database w)) (executed (database w)) w).
Proof.
  intros Htype Htb Hrows. unfold migrateDown, try_exit.
  rewrite decide_False by done.
  by rewrite (bind_ok _ _ _ _ _ (query_latest _ _ _ Htb)), Hrows.
Qed.

Lemma migrateDown_times_S n scriptsDir type w :
  migrateDown_times (S n) scriptsDir type w =
    match migrateDown (Some pool) scriptsDir type w with
    | (Returned, w') => migrateDown_times n scriptsDir type w'
    | stopped => stopped
    end.
Proof. reflexivity. Qed.

(** As many Downs as the ledger has rows. *)
Lemma migrateDown_walk scriptsDir type dir rs :
  type ≠ "seed" → ∀ w tb,
  fs w !! scriptsDir = Some dir →
  tables (database w) !! table_of type = Some tb →
  table_rows tb = rs →
  StronglySorted older rs →
  NoDup (row_version <$> rs) →
  (∀ v, v ∈ row_version <$> rs →
        is_Some (find_script v (entries dir))) →
  all_accepted (executed (database w))
    (down_of dir <$> reverse (row_version <$> rs)) = true →
  ∃ w' tb',
    migrateDown_times (length rs) scriptsDir type w = (Returned, w') ∧
    fs w' = fs w ∧
    tables (database w') !! table_of type = Some tb' ∧
    table_rows tb' = [] ∧
    executed (database w') =
      executed (database w) ++ (down_of dir <$> reverse (row_version <$> rs)).
Proof.
  intros Htype. induction rs as [|r rs IH] using rev_ind;
    intros w tb Hdir Htb Hrows Hsorted Hnd Hfound Hacc.
  - exists w, tb. simpl. by rewrite app_nil_r.
  - rewrite fmap_snoc, reverse_snoc in Hacc |- *. simpl in Hacc.
    apply andb_true_iff in Hacc as [Hr Hacc].
    apply StronglySorted_app in Hsorted as (Holder & Hsorted & _).
    rewrite fmap_snoc in Hnd. apply NoDup_app in Hnd as (Hnd & Hfresh & _).
    destruct (migrateDown_step w scriptsDir type dir tb rs r [])
      as (w1 & Hrun & Hfs & Htbs & Hex & _); try done.
    { intros x Hx. rewrite app_nil_r in Hx. apply Holder; [done|by left]. }
    { apply Hfound. rewrite fmap_snoc, elem_of_app. right. by left. }
    destruct (IH w1 (delete_rows (row_version r) tb))
      as (w' & tb' & Hrun' & Hfs' & Htb' & Hempty & Hex').
    + by rewrite Hfs.
    + rewrite Htbs. apply lookup_insert_eq.
    + destruct tb as [rows serial]. simpl in Hrows. subst rows.
      rewrite delete_rows_unique, app_nil_r; [done|].
      intros x Hx Heq. rewrite app_nil_r in Hx.
      apply (Hfresh (row_version x)); [|rewrite Heq; by left].
      apply list_elem_of_fmap. by exists x.
    + done.
    + done.
    + intros v Hv. apply Hfound. rewrite fmap_snoc, elem_of_app. by left.
    + by rewrite Hex.
    + exists w', tb'. rewrite length_app. simpl.
      replace (length rs + 1) with (S (length rs)) by lia.
      rewrite migrateDown_times_S, Hrun.
      repeat split; try done; [congruence|].
      rewrite Hex', Hex. by rewrite <- (assoc_L (++)).
Qed.

(** C6, amended. On a ledger whose rows were recorded one after another
    with pairwise distinct versions, each version having a script on disk
    and the server accepting the DOWN bodies: one Down runs the DOWN body
    of the script of the newest version only, the first in the order of
    the directory listing where several scripts share the version, and
    deletes that row, leaving the rows recorded before it; as many Downs
    as there are rows empty the ledger; and Down on the empty ledger exits
    with an error. *)
Theorem migrateDown_reverts_latest w scriptsDir type dir tb :
  type ≠ "seed" →
  fs w !! scriptsDir = Some dir →
  tables (database w) !! table_of type = Some tb →
  StronglySorted older (table_rows tb) →
  NoDup (applied type (database w)) →
  (∀ v, v ∈ applied type (database w) →
        is_Some (find_script v (entries dir))) →
  all_accepted (executed (database w))
    (down_of dir <$> reverse (applied type (database w))) = true →
  (∀ rs r, table_rows tb = rs ++ [r] →
     ∃ w1,
       migrateDown (Some pool) scriptsDir type w = (Returned, w1) ∧
       applied type (database w1) = row_version <$> rs ∧
       executed (database w1) =
         executed (database w) ++ [down_of dir (row_version r)] ∧
       issued (database w1) =
         issued (database w)
         ++ [SelectLatestVersion (table_of type);
             Script (down_of dir (row_version r));
             DeleteVersion (table_of type) (row_version r)]) ∧
  ∃ w' w'',
    migrateDown_times (length (table_rows tb)) scriptsDir type w = (Returned, w') ∧
    applied type (database w') = [] ∧
    executed (database w') =
      executed (database w) ++ (down_of dir <$> reverse (applied type (database w))) ∧
    migrateDown (Some pool) scriptsDir type w' =
      (Exited 1 "Migration DOWN failed: " UndefinedRow, w'') ∧
    tables (database w'') = tables (database w') ∧
    executed (database w'') = executed (database w').
Proof.
  intros Htype Hdir Htb Hsorted Hnd Hfound Hacc.
  rewrite (applied_lookup _ _ _ Htb) in Hnd, Hfound, Hacc |- *.
  split.
  - intros rs r Hrows. rewrite Hrows in *.
    rewrite fmap_snoc, reverse_snoc in Hacc. simpl in Hacc.
    apply andb_true_iff in Hacc as [Hr _].
    apply StronglySorted_app in Hsorted as (Holder & _ & _).
    rewrite fmap_snoc in Hnd. apply NoDup_app in Hnd as (_ & Hfresh & _).
    destruct (migrateDown_step w scriptsDir type dir tb rs r [])
      as (w1 & Hrun & Hfs & Htbs & Hex & Hiss); try done.
    { intros x Hx. rewrite app_nil_r in Hx. apply Holder; [done|by left]. }
    { apply Hfound. rewrite fmap_snoc, elem_of_app. right. by left. }
    exists w1. repeat (split; [done|]). split; [|done].
    rewrite (applied_lookup _ _ (delete_rows (row_version r) tb))
      by (rewrite Htbs; apply lookup_insert_eq).
    destruct tb as [rows serial]. simpl in Hrows. subst rows.
    rewrite delete_rows_unique, app_nil_r; [done|].
    intros x Hx Heq. rewrite app_nil_r in Hx.
    apply (Hfresh (row_version x)); [|rewrite Heq; by left].
    apply list_elem_of_fmap. by exists x.
  - destruct (migrateDown_walk scriptsDir type dir (table_rows tb) Htype w tb)
      as (w' & tb' & Hrun & Hfs & Htb' & Hempty & Hex); try done.
    eexists w', _. split; [done|].
    split; [by rewrite (applied_lookup _ _ _ Htb'), Hempty|].
    split; [done|].
    split; [by apply (migrateDown_empty _ _ _ tb')|]. done.
Qed.

(** C5. Down on seeds throws before anything else: no statement is sent,
    nothing is read, and the world is as it was, whatever the ledger, the
    scripts and the handle are. Seeds are the only kind for which Down ends
    with this error. *)
Theorem migrateDown_seed_unsupported db scriptsDir w :
  migrateDown db scriptsDir "seed" w = (Threw SeederCannotBeReverted, w) ∧
  ∀ type, type ≠ "seed" →
          (migrateDown db scriptsDir type w).1 ≠ Threw SeederCannotBeReverted.
Proof.
  split; [reflexivity|]. intros type Htype.
  unfold migrateDown. rewrite decide_False by done.
  destruct db as [p|]; [|done]. unfold try_exit.
  match goal with |- context [?body w] => by destruct (body w) as [[[]|e] w'] end.
Qed.

(** *** [migrateReset] *)

Abbreviation migrateReset := (migrateReset accepts).
Abbreviation migrateReset_loop := (migrateReset_loop accepts).



Lemma migrateReset_loop_cons scriptsDir file scripts :
  migrateReset_loop scriptsDir (file :: scripts) =
    (migrationScripts ← readFileSync scriptsDir file;
     _ ← query (Script (extractDown migrationScripts));
     migrateReset_loop scriptsDir scripts).
Proof. reflexivity. Qed.

Lemma migrateReset_loop_ok scriptsDir dir scripts : ∀ w,
  fs w !! scriptsDir = Some dir →
  (∀ f, f ∈ scripts → is_Some (dir !! f)) →
  all_accepted (executed (database w)) (down_body dir <$> scripts) = true →
  ∃ w',
    migrateReset_loop scriptsDir scripts w = (Ok (), w') ∧
    fs w' = fs w ∧
    tables (database w') = tables (database w) ∧
    executed (database w') = executed (database w) ++ (down_body dir <$> scripts) ∧
    issued (database w') = issued (database w) ++ down_statements dir scripts.
Proof.
  induction scripts as [|f scripts IH]; intros w Hdir Hin Hacc.
  - exists w. simpl. by rewrite !app_nil_r.
  - simpl in Hacc. apply andb_true_iff in Hacc as [Hf Hacc].
    destruct (Hin f) as [contents Hc]; [by left|].
    assert (down_body dir f = extractDown contents) as Hbody
      by (unfold down_body; by rewrite Hc).
    rewrite Hbody in Hf, Hacc.
    rewrite migrateReset_loop_cons.
    rewrite (bind_ok _ _ _ _ _ (readFileSync_ok _ _ _ _ _ Hdir Hc)).
    rewrite (bind_ok _ _ _ _ _ (query_script_accepted _ _ Hf)).
    destruct (IH (after (Script (extractDown contents)) (tables (database w))
                    (executed (database w) ++ [extractDown contents]) w))
      as (w' & Hrun & Hfs & Htbs & Hex & Hiss); try done.
    { intros g Hg. apply Hin. by right. }
    exists w'. split; [done|]. rewrite Hfs, Htbs, Hex, Hiss.
    unfold down_statements. simpl. rewrite Hbody.
    by rewrite <- !(assoc_L (++)).
Qed.

(** The first loop of [migrateReset] keeps every file. *)
Lemma filter_includes_self files :
  List.filter (λ file, Js.includes files file) files = files.
Proof.
  assert (∀ l, (∀ x, x ∈ l → x ∈ files) →
               List.filter (λ file, Js.includes files file) l = l) as H.
  { induction l as [|x l IH]; intros Hl; [done|]. simpl.
    rewrite (proj2 (includes_true files x)) by (apply Hl; by left).
    rewrite IH; [done|]. intros y Hy. apply Hl. by right. }
  by apply H.
Qed.

Lemma elem_of_applied_files versions (dir : Dir) f :
  f ∈ applied_files versions (entries dir) ↔
  f ∈ scripts_of dir ∧ version_of f ∈ versions.
Proof.
  unfold applied_files.
  rewrite elem_of_reverse, elem_of_sort, list_elem_of_In, filter_In.
  rewrite <- list_elem_of_In, elem_of_scripts_of, elem_of_names.
  rewrite andb_true_iff, includes_true. tauto.
Qed.


Lemma filter_and_sublist {A} (P Q : A → bool) l :
  List.filter (λ x, P x && Q x) l `sublist_of` List.filter Q l.
Proof.
  induction l as [|x l IH]; [done|]. simpl.
  destruct (P x), (Q x); simpl; [by constructor|done|by constructor|done].
Qed.

(** Where no two scripts share a version, the files Reset selects have
    pairwise distinct versions. *)
Lemma applied_files_versions_NoDup versions (dir : Dir) :
  NoDup (version_of <$> scripts_of dir) →
  NoDup (version_of <$> applied_files versions (entries dir)).
Proof.
  intros Hnd. unfold applied_files, Js.sort.
  rewrite reverse_Permutation, merge_sort_Permutation.
  eapply sublist_NoDup; [exact Hnd|].
  apply fmap_sublist, filter_and_sublist.
Qed.

Lemma elem_of_applied_files_versions versions (dir : Dir) v :
  v ∈ version_of <$> applied_files versions (entries dir) ↔
  v ∈ versions ∧ v ∈ version_of <$> scripts_of dir.
Proof.
  rewrite !list_elem_of_fmap. split.
  - intros (f & -> & Hf). apply elem_of_applied_files in Hf as [Hf Hv].
    split; [done|]. by exists f.
  - intros (Hv & f & -> & Hf). exists f. split; [done|].
    by apply elem_of_applied_files.
Qed.

(** After the [SELECT] and the directory listing, a Reset of a ledger
    other than the seeds' is decided by the count of the files selected. *)
Lemma migrateReset_unfold w scriptsDir type dir tb :
  type ≠ "seed" →
  fs w !! scriptsDir = Some dir →
  tables (database w) !! table_of type = Some tb →
  let versions := applied type (database w) in
  let files := applied_files versions (entries dir) in
  migrateReset (Some pool) scriptsDir type w =
    try_exit "Migration DOWN failed: "
      (if decide (length files ≠ length (table_rows tb)) then
         throw (MissingVersion
                  (List.filter
                     (λ v, negb (Js.includes (version_of <$> files) v)) versions))
       else
         _ ← migrateReset_loop scriptsDir files;
         _ ← query (DeleteAll (table_of type));
         _ ← query (DropTableIfExists "node_migrator_seeds");
         mret ())
      (after (SelectVersions (table_of type))
         (tables (database w)) (executed (database w)) w).
Proof.
  intros Htype Hdir Htb versions files. unfold migrateReset, try_exit.
  rewrite decide_False by done.
  rewrite (bind_ok _ _ _ _ _ (query_select _ _ _ Htb)).
  erewrite bind_ok; [|by apply readdirSync_ok].
  rewrite versions_result_of, filter_includes_self.
  subst versions files. rewrite (applied_lookup _ _ _ Htb).
  unfold result_of. cbn [rowCount]. done.
Qed.




(** C7, amended. Where no two scripts of the directory share a version, a
    Reset of a ledger in which some applied version has no script exits
    with the error that lists the applied versions without a script; it
    has run no script and has left the ledger as it was. *)
Theorem migrateReset_missing_script w scriptsDir type dir v :
  type ≠ "seed" →
  fs w !! scriptsDir = Some dir →
  is_Some (tables (database w) !! table_of type) →
  NoDup (version_of <$> scripts_of dir) →
  v ∈ applied type (database w) →
  v ∉ (version_of <$> scripts_of dir) →
  ∃ missing w',
    migrateReset (Some pool) scriptsDir type w =
      (Exited 1 "Migration DOWN failed: " (MissingVersion missing), w') ∧
    (∀ x, x ∈ missing ↔
          x ∈ applied type (database w) ∧ x ∉ (version_of <$> scripts_of dir)) ∧
    tables (database w') = tables (database w) ∧
    executed (database w') = executed (database w) ∧
    issued (database w') = issued (database w) ++ [SelectVersions (table_of type)] ∧
    fs w' = fs w.
Proof.
  intros Htype Hdir [tb Htb] Hnd Hv Hno.
  set (versions := applied type (database w)) in *.
  set (files := applied_files versions (entries dir)).
  assert (length files ≠ length (table_rows tb)) as Hlen.
  { assert (S (length files) ≤ length versions) as Hle.
    { rewrite <- (length_fmap version_of files).
      change (S (length (version_of <$> files)))
        with (length (v :: (version_of <$> files))).
      apply submseteq_length, NoDup_submseteq.
      - apply NoDup_cons. split; [|by apply applied_files_versions_NoDup].
        unfold files. rewrite elem_of_applied_files_versions. tauto.
      - intros x [->|Hx]%elem_of_cons; [done|].
        unfold files in Hx. by apply elem_of_applied_files_versions in Hx as [? _]. }
    unfold versions in Hle.
    rewrite (applied_lookup _ _ _ Htb), length_fmap in Hle. lia. }
  eexists _, _. split.
  { rewrite (migrateReset_unfold _ _ _ _ _ Htype Hdir Htb). unfold try_exit.
    fold versions. fold files. by rewrite decide_True by done. }
  split; [|done].
  intros x. rewrite list_elem_of_In, filter_In, <- list_elem_of_In.
  rewrite negb_true_iff, includes_false.
  unfold files. rewrite elem_of_applied_files_versions. tauto.
Qed.

End EngineFacts.

(** ** [generateMigration] *)

Lemma timestamp_of_example : timestamp_of "2024-01-15T14:30:22.123Z" = "20240115143022".
Proof. reflexivity. Qed.

Lemma not_occurs_of_split m s : m ≠ "" → Js.split s m = [s] → ¬ occurs m s.
Proof.
  intros Hm Hsplit Hocc.
  destruct (first_or_absent m s Hm) as [H|(pre & rest & H)]; [done|].
  rewrite (split_first _ _ _ _ Hm H) in Hsplit.
  destruct (split_head m rest Hm) as (piece & _ & Hpiece & _).
  injection Hsplit as _ Hnil. by rewrite Hnil in Hpiece.
Qed.

Lemma occurs_char_cons c a t :
  occurs (String c "") (String a t) → a = c ∨ occurs (String c "") t.
Proof.
  intros ([|b x] & y & H).
  - rewrite str_app_nil_l, str_app_cons in H. left. congruence.
  - rewrite str_app_cons in H. right. exists x, y. congruence.
Qed.

Lemma occurs_char_app c s t :
  occurs (String c "") (s +:+ t) → occurs (String c "") s ∨ occurs (String c "") t.
Proof.
  induction s as [|a s IH]; [rewrite str_app_nil_l; by right|].
  rewrite str_app_cons. intros [->|H]%occurs_char_cons.
  - left. by exists "", s.
  - destruct (IH H) as [Hs|Ht]; [left; by apply occurs_cons|by right].
Qed.

Lemma replace_non_digits_only c s :
  is_digit c = false → ¬ occurs (String c "") (replace_non_digits s).
Proof.
  intros Hc. induction s as [|a s IH]; simpl.
  - by apply not_occurs_nil.
  - destruct (is_digit a) eqn:Ha; [|done].
    intros [->|H]%occurs_char_cons; [congruence|done].
Qed.


Lemma occurs_of_split m s :
  m ≠ "" → length (Js.split s m) ≠ 1 → occurs m s.
Proof.
  intros Hm Hlen. destruct (first_or_absent m s Hm) as [H|(pre & rest & [-> _])].
  - by rewrite (split_absent _ _ Hm H) in Hlen.
  - by exists pre, rest.
Qed.

Lemma TEMPLATE_markers : occurs UP_MARKER TEMPLATE ∧ occurs DOWN_MARKER TEMPLATE.
Proof. split; (apply occurs_of_split; [done|by vm_compute]). Qed.

Lemma elem_of_ancestors_self (dir : Path) : dir ∈ ancestors dir.
Proof.
  unfold ancestors. apply list_elem_of_fmap. exists (length dir).
  split; [by rewrite firstn_all|]. apply elem_of_seq. lia.
Qed.

Lemma mkdir_lookup_missing (f : gmap Path Dir) (dir p : Path) :
  f !! p = None → p ∈ ancestors dir →
  (f ∪ gset_to_gmap (∅ : Dir) (list_to_set (ancestors dir))) !! p = Some ∅.
Proof.
  intros Hp Hin. rewrite lookup_union_r by done.
  apply lookup_gset_to_gmap_Some. split; [|done]. by apply elem_of_list_to_set.
Qed.

Lemma mkdir_lookup_present (f : gmap Path Dir) (dir p : Path) d :
  f !! p = Some d →
  (f ∪ gset_to_gmap (∅ : Dir) (list_to_set (ancestors dir))) !! p = Some d.
Proof. intros Hp. by apply lookup_union_Some_l. Qed.

Lemma mkdir_lookup_other (f : gmap Path Dir) (dir p : Path) :
  p ∉ ancestors dir →
  (f ∪ gset_to_gmap (∅ : Dir) (list_to_set (ancestors dir))) !! p = f !! p.
Proof.
  intros Hp. destruct (f !! p) as [d|] eqn:Hf; [by apply lookup_union_Some_l|].
  apply lookup_union_None. split; [done|].
  apply lookup_gset_to_gmap_None. by rewrite elem_of_list_to_set.
Qed.

Lemma join_name p s : is_name s → join p s = p ++ [s].
Proof.
  intros (Hempty & Hdot & Hdots & Hsep). unfold join.
  rewrite split_absent by done. simpl. unfold join_segment.
  rewrite decide_False by (by intros [?|?]). by rewrite decide_False.
Qed.

Lemma dirname_snoc p s : dirname (p ++ [s]) = p.
Proof. apply removelast_last. Qed.

Lemma basename_snoc p s : basename (p ++ [s]) = s.
Proof. unfold basename. by rewrite last_snoc. Qed.

Lemma timestamp_of_no_separator iso : ¬ occurs "/" (timestamp_of iso).
Proof. by apply (replace_non_digits_only "/"%char). Qed.

(** For a name without separator, what is joined to the scripts directory
    is the name of a file. *)
Lemma script_name_is_name iso name :
  ¬ occurs "/" name → is_name (script_name (timestamp_of iso) name).
Proof.
  intros Hname. unfold script_name.
  assert (∀ x, String.length x < 5 →
               timestamp_of iso +:+ "_" +:+ name +:+ ".sql" ≠ x) as Hlen.
  { intros x Hx H. apply (f_equal String.length) in H.
    rewrite !str_length_app in H. simpl in H. lia. }
  repeat split; [apply Hlen; simpl; lia..|].
  intros H.
  repeat (apply occurs_char_app in H as [H|H];
          [first [by apply timestamp_of_no_separator in H
                 |done
                 |by apply occurs_char_cons in H as [H|H%not_occurs_nil]]|]).
  by vm_compute in H; destruct H as (a & b & H);
    repeat (destruct a as [|? a]; [discriminate|]; injection H as _ H);
    destruct a.
Qed.

Lemma set_fs_same w : set_fs (fs w) w = w.
Proof. by destruct w. Qed.

(** What [generateMigration] does with a name that is not empty: the
    scripts directory is created where it is missing, and the template is
    written to the path that the file name joined to the scripts directory
    names, where the directory of that path exists. *)
Lemma generateMigration_result scriptsDir name type w :
  name ≠ "" →
  let target := join scriptsDir (script_name (timestamp_of (date_now w)) name) in
  let made :=
    if decide (is_Some (fs w !! scriptsDir)) then fs w
    else fs w ∪ gset_to_gmap (∅ : Dir) (list_to_set (ancestors scriptsDir)) in
  generateMigration scriptsDir name type w =
    match made !! dirname target with
    | Some d =>
        (Returned,
         set_fs (<[dirname target := <[basename target := TEMPLATE]> d]> made) w)
    | None => (Threw (NoSuchDirectory (dirname target)), set_fs made w)
    end.
Proof.
  intros Hname target made. unfold generateMigration, no_try.
  rewrite decide_False by (destruct name; [done|simpl; lia]).
  erewrite (bind_ok toISOString_now); [|reflexivity].
  erewrite (bind_ok (existsSync _)); [|reflexivity].
  cbv zeta. fold target.
  subst made. destruct (fs w !! scriptsDir) as [d|] eqn:Hd.
  - rewrite bool_decide_eq_true_2, decide_True by done. cbn [negb].
    erewrite (bind_ok (mret _)); [|reflexivity].
    unfold writeFileSync.
    destruct (fs w !! dirname target); [done|]. by rewrite set_fs_same.
  - rewrite bool_decide_eq_false_2, decide_False by (by intros [??]). cbn [negb].
    erewrite (bind_ok (mkdirSync_recursive _)); [|reflexivity].
    unfold writeFileSync. cbn [fs set_fs].
    by destruct (_ !! dirname target).
Qed.

(** With a name without separator the file is an entry of the scripts
    directory. *)
Lemma generateMigration_writes scriptsDir name type w :
  name ≠ "" → ¬ occurs "/" name →
  let file := script_name (timestamp_of (date_now w)) name in
  let before := default ∅ (fs w !! scriptsDir) in
  let made :=
    if decide (is_Some (fs w !! scriptsDir)) then fs w
    else fs w ∪ gset_to_gmap (∅ : Dir) (list_to_set (ancestors scriptsDir)) in
  generateMigration scriptsDir name type w =
    (Returned, set_fs (<[scriptsDir := <[file := TEMPLATE]> before]> made) w).
Proof.
  intros Hname Hsep file before made.
  rewrite (generateMigration_result _ _ _ _ Hname). cbv zeta.
  rewrite (join_name scriptsDir _ (script_name_is_name (date_now w) name Hsep)).
  rewrite dirname_snoc, basename_snoc. fold file.
  subst made before. destruct (fs w !! scriptsDir) as [d|] eqn:Hd.
  - rewrite decide_True by done. by rewrite Hd.
  - rewrite decide_False by (by intros [??]).
    by rewrite mkdir_lookup_missing by (done || apply elem_of_ancestors_self).
Qed.

(** C8, amended. New with an empty name throws and writes nothing. With a
    name that is not empty and has no path separator it returns, and the
    one file it has written is [{timestamp}_{name}.sql] in the scripts
    directory, with the template, which has both markers, as its contents;
    the scripts directory and the directories above it have been created
    where the scripts directory was missing; nothing else has changed. *)
Theorem generateMigration_new scriptsDir name type w :
  (name = "" → generateMigration scriptsDir name type w = (Threw NameRequired, w)) ∧
  (name ≠ "" → ¬ occurs "/" name →
     let file := script_name (timestamp_of (date_now w)) name in
     ∃ w',
       generateMigration scriptsDir name type w = (Returned, w') ∧
       database w' = database w ∧
       fs w' !! scriptsDir =
         Some (<[file := TEMPLATE]> (default ∅ (fs w !! scriptsDir))) ∧
       (fs w !! scriptsDir = None →
        ∀ p, p ∈ ancestors scriptsDir → is_Some (fs w' !! p)) ∧
       (∀ p, p ≠ scriptsDir →
             fs w' !! p = fs w !! p ∨
             (fs w !! p = None ∧ p ∈ ancestors scriptsDir ∧ fs w' !! p = Some ∅)) ∧
       occurs UP_MARKER TEMPLATE ∧ occurs DOWN_MARKER TEMPLATE).
Proof.
  split; [by intros ->|]. intros Hname Hsep file.
  eexists. split; [by apply generateMigration_writes|]. split; [done|].
  cbn [fs set_fs]. split; [by rewrite lookup_insert_eq|].
  split; [|split; [|exact TEMPLATE_markers]].
  - intros Hmissing p Hp. rewrite decide_False by (rewrite Hmissing; by intros [??]).
    destruct (decide (scriptsDir = p)) as [->|Hne]; [by rewrite lookup_insert_eq|].
    rewrite lookup_insert_ne by done.
    destruct (fs w !! p) as [d|] eqn:Hd.
    + by rewrite (mkdir_lookup_present _ _ _ _ Hd).
    + by rewrite mkdir_lookup_missing.
  - intros p Hne. rewrite lookup_insert_ne by done.
    destruct (decide (is_Some (fs w !! scriptsDir))); [by left|].
    destruct (fs w !! p) as [d|] eqn:Hd.
    + left. by apply mkdir_lookup_present.
    + destruct (decide (p ∈ ancestors scriptsDir)).
      * right. by rewrite mkdir_lookup_missing.
      * left. by rewrite mkdir_lookup_other.
Qed.

(** C10. When the path New is about to write, the file name joined to the
    scripts directory, already is that of a file, New returns without an
    error and that file now holds the template; its directory has the same
    entries as before and the other files of it are unchanged; so are all
    other directories where the scripts directory exists, and otherwise
    all but the scripts directory and the directories above it, which New
    creates, empty, where they are missing. For a name without separator
    the path is that of the entry [{timestamp}_{name}.sql] of the scripts
    directory. *)
Theorem generateMigration_overwrites scriptsDir name type w dir old :
  name ≠ "" →
  let file := script_name (timestamp_of (date_now w)) name in
  let target := join scriptsDir file in
  fs w !! dirname target = Some dir →
  dir !! basename target = Some old →
  ∃ w' dir',
    generateMigration scriptsDir name type w = (Returned, w') ∧
    database w' = database w ∧
    fs w' !! dirname target = Some dir' ∧
    dir' !! basename target = Some TEMPLATE ∧
    dom dir' = dom dir ∧
    (∀ g, g ≠ basename target → dir' !! g = dir !! g) ∧
    (is_Some (fs w !! scriptsDir) →
     ∀ p, p ≠ dirname target → fs w' !! p = fs w !! p) ∧
    (∀ p, p ≠ dirname target →
          fs w' !! p = fs w !! p ∨
          (fs w !! p = None ∧ p ∈ ancestors scriptsDir ∧ fs w' !! p = Some ∅)) ∧
    (¬ occurs "/" name → dirname target = scriptsDir ∧ basename target = file).
Proof.
  intros Hname file target Hdir Hold.
  pose proof (generateMigration_result scriptsDir name type w Hname) as Hrun.
  cbv zeta in Hrun. fold file in Hrun. fold target in Hrun.
  set (made := if decide (is_Some (fs w !! scriptsDir)) then fs w
               else fs w ∪ gset_to_gmap (∅ : Dir) (list_to_set (ancestors scriptsDir)))
    in Hrun.
  assert (made !! dirname target = Some dir) as Hmade.
  { subst made. case_decide; [done|]. by apply mkdir_lookup_present. }
  rewrite Hmade in Hrun.
  eexists _, (<[basename target := TEMPLATE]> dir).
  split; [exact Hrun|]. split; [done|].
  cbn [fs set_fs].
  split; [by rewrite lookup_insert_eq|].
  split; [by rewrite lookup_insert_eq|].
  split.
  { rewrite dom_insert_L. apply subseteq_union_1_L, singleton_subseteq_l.
    by apply (elem_of_dom_2 dir _ old). }
  split; [intros g Hg; by rewrite lookup_insert_ne|].
  split.
  { intros Hthere p Hp. rewrite lookup_insert_ne by done.
    subst made. by rewrite decide_True. }
  split.
  { intros p Hp. rewrite lookup_insert_ne by done. subst made.
    case_decide; [by left|].
    destruct (fs w !! p) as [d|] eqn:Hd.
    + left. by apply mkdir_lookup_present.
    + destruct (decide (p ∈ ancestors scriptsDir)).
      * right. by rewrite mkdir_lookup_missing.
      * left. by rewrite mkdir_lookup_other. }
  intros Hsep. subst target file.
  rewrite (join_name scriptsDir _ (script_name_is_name (date_now w) name Hsep)).
  by rewrite dirname_snoc, basename_snoc.
Qed.

(** ** [runMigrations] *)

(** Before any action other than New, the ledger table of the kind is
    created if it is missing, and left alone if it is there. *)
Lemma ensure_ledger accepts t w :
  ∃ r w1,
    query accepts (CreateTableIfNotExists t) w = (Ok r, w1) ∧
    is_Some (tables (database w1) !! t) ∧
    (is_Some (tables (database w) !! t) → tables (database w1) = tables (database w)) ∧
    executed (database w1) = executed (database w) ∧
    fs w1 = fs w.
Proof.
  eexists _, _. split; [reflexivity|]. simpl.
  destruct (tables (database w) !! t) as [tb|] eqn:Htb.
  - by rewrite Htb.
  - rewrite lookup_insert_eq. repeat split; [by eexists|by intros [??]].
Qed.

(** Down on seeds from the command line: the process exits with code 1, and
    the one statement the server has received is the [CREATE TABLE IF NOT
    EXISTS] of the seeds ledger. *)
Lemma runMigrations_down_seed accepts cwd driver name w :
  ∃ tbs,
    runMigrations accepts cwd "down" driver "seed" name w =
      (1, after (CreateTableIfNotExists "node_migrator_seeds") tbs
            (executed (database w)) w).
Proof. eexists. reflexivity. Qed.

(** New without a name from the command line, for either kind: exit code 1,
    and nothing has happened. *)
Lemma runMigrations_new_unnamed accepts cwd driver type w :
  type ∈ ["migration"; "seed"] →
  runMigrations accepts cwd "new" driver type "" w = (1, w).
Proof.
  intros Htype.
  repeat (apply elem_of_cons in Htype as [->|Htype]); [reflexivity..|].
  by apply elem_of_nil in Htype.
Qed.

(** ** The theorems at the example worlds *)

(** Decidable facts about closed terms. *)
Ltac by_compute := apply (bool_decide_unpack _); vm_compute; exact I.


Lemma migrateUp_fail_fast_witness :
  ∃ w',
    migrateUp reject_typo (Some pool) example_dir "migration" (world_of [] three_scripts)
      = (Exited 1 "Migration UP failed: "
           (QueryError (Script (up_body three_scripts "20240102000000_broken.sql"))),
         w') ∧
    applied "migration" (database w') = ["20240101000000"] ∧
    executed (database w') = [up_body three_scripts "20240101000000_init.sql"].
Proof.
  destruct (migrateUp_fail_fast reject_typo (world_of [] three_scripts)
              example_dir "migration" three_scripts
              ["20240101000000_init.sql"] "20240102000000_broken.sql"
              ["20240103000000_users.sql"])
    as (w' & Hrun & HA & Hex & _).
  - reflexivity.
  - by_compute.
  - vm_compute. reflexivity.
  - vm_compute. reflexivity.
  - vm_compute. reflexivity.
  - exists w'. split; [exact Hrun|]. split; [exact HA|exact Hex].
Defined.

Lemma migrateDown_reverts_latest_witness :
  ∃ w1 w' w'',
    migrateDown accept_all (Some pool) example_dir "migration"
      (world_of [init_row; users_row] two_scripts) = (Returned, w1) ∧
    applied "migration" (database w1) = ["20240101000000"] ∧
    executed (database w1) = [down_body two_scripts "20240102000000_users.sql"] ∧
    migrateDown_times accept_all 2 example_dir "migration"
      (world_of [init_row; users_row] two_scripts) = (Returned, w') ∧
    applied "migration" (database w') = [] ∧
    migrateDown accept_all (Some pool) example_dir "migration" w'
      = (Exited 1 "Migration DOWN failed: " UndefinedRow, w'').
Proof.
  destruct (migrateDown_reverts_latest accept_all
              (world_of [init_row; users_row] two_scripts)
              example_dir "migration" two_scripts (mkTable [init_row; users_row] 3))
    as [Hstep (w' & w'' & Hwalk & HA & _ & Hfail & _)].
  - done.
  - reflexivity.
  - reflexivity.
  - repeat constructor; unfold older; simpl; lia.
  - by_compute.
  - intros v Hv. vm_compute in Hv.
    repeat (apply elem_of_cons in Hv as [->|Hv]); [by_compute..|].
    apply elem_of_nil in Hv. destruct Hv.
  - vm_compute. reflexivity.
  - destruct (Hstep [init_row] users_row eq_refl) as (w1 & Hrun & HA1 & Hex1 & _).
    exists w1, w', w''. repeat split; assumption.
Defined.

Lemma migrateDown_seed_unsupported_witness :
  migrateDown accept_all (Some pool) example_dir "seed" (world_of [init_row] two_scripts)
    = (Threw SeederCannotBeReverted, world_of [init_row] two_scripts) ∧
  (migrateDown accept_all (Some pool) example_dir "migration"
     (world_of [init_row] two_scripts)).1 ≠ Threw SeederCannotBeReverted.
Proof.
  destruct (migrateDown_seed_unsupported accept_all (Some pool) example_dir
              (world_of [init_row] two_scripts)) as [Hseed Hother].
  split; [exact Hseed|]. apply Hother. discriminate.
Defined.



(** C6, as stated, fails: an Up over two scripts of one version records
    the version twice, and the Down that follows runs the DOWN body of one
    of the two scripts and deletes both rows; the applied set is empty, not
    the one before the second script was applied. *)
Lemma migrateDown_deletes_both_twin_rows :
  ∃ w1 w2,
    migrateUp accept_all (Some pool) example_dir "migration"
      (world_of [] twin_scripts) = (Returned, w1) ∧
    applied "migration" (database w1) = ["20240101000000"; "20240101000000"] ∧
    executed (database w1) =
      [up_body twin_scripts "20240101000000_init.sql";
       up_body twin_scripts "20240101000000_users.sql"] ∧
    migrateDown accept_all (Some pool) example_dir "migration" w1 = (Returned, w2) ∧
    applied "migration" (database w2) = [] ∧
    executed (database w2) =
      executed (database w1) ++ [down_body twin_scripts "20240101000000_init.sql"].
Proof.
  eexists _, _. split; [vm_compute; reflexivity|].
  split; [vm_compute; reflexivity|]. split; [vm_compute; reflexivity|].
  split; [vm_compute; reflexivity|].
  split; vm_compute; reflexivity.
Qed.

(** C7, as stated, fails: with two scripts of one version on disk, a Reset of
    a ledger that also holds a version without any script passes the count
    check, runs both DOWN bodies and empties the ledger. *)
Lemma migrateReset_miscounts_twin_scripts :
  "20240103000000" ∈ applied "migration" (database twin_world) ∧
  ("20240103000000" ∉ (version_of <$> scripts_of twin_scripts)) ∧
  ∃ w',
    migrateReset accept_all (Some pool) example_dir "migration" twin_world
      = (Returned, w') ∧
    executed (database w') =
      [down_body twin_scripts "20240101000000_users.sql";
       down_body twin_scripts "20240101000000_init.sql"] ∧
    applied "migration" (database w') = [].
Proof.
  split; [by_compute|]. split; [by_compute|].
  eexists. split; [vm_compute; reflexivity|].
  split; vm_compute; reflexivity.
Qed.

Lemma migrateReset_missing_script_witness :
  ∃ w',
    migrateReset accept_all (Some pool) example_dir "migration"
      (world_of [init_row; orphan_row] two_scripts)
      = (Exited 1 "Migration DOWN failed: " (MissingVersion ["20240103000000"]), w') ∧
    tables (database w') = tables (database (world_of [init_row; orphan_row] two_scripts)) ∧
    executed (database w') = [].
Proof.
  destruct (migrateReset_missing_script accept_all
              (world_of [init_row; orphan_row] two_scripts)
              example_dir "migration" two_scripts "20240103000000")
    as (missing & w' & Hrun & _ & Htbs & Hex & _).
  - done.
  - reflexivity.
  - by_compute.
  - by_compute.
  - by_compute.
  - by_compute.
  - exists w'. split; [|split; assumption].
    rewrite Hrun. vm_compute in Hrun. by injection Hrun as <- _.
Defined.

Lemma generateMigration_new_witness :
  ∃ w',
    generateMigration example_dir "roles" "migration" (world_of [] two_scripts)
      = (Returned, w') ∧
    fs w' !! example_dir = Some (<["20240115143022_roles.sql" := TEMPLATE]> two_scripts).
Proof.
  destruct (generateMigration_new example_dir "roles" "migration"
              (world_of [] two_scripts)) as [_ H].
  destruct H as (w' & Hrun & _ & Hdir & _).
  - done.
  - apply not_occurs_of_split; [done|reflexivity].
  - exists w'. split; [exact Hrun|exact Hdir].
Defined.

(** C8, as stated, fails: with a name that has a path separator the file
    name joined to the scripts directory names a file of a directory below
    it, which New does not create; the write fails and no file is
    written. *)
Lemma generateMigration_fails_on_separator :
  "a/b" ≠ "" ∧
  generateMigration example_dir "a/b" "migration" (world_of [] two_scripts)
    = (Threw (NoSuchDirectory (example_dir ++ ["20240115143022_a"])),
       world_of [] two_scripts).
Proof. split; [done|]. vm_compute. reflexivity. Qed.

Lemma generateMigration_overwrites_witness :
  ∃ w' dir',
    generateMigration example_dir "users" "migration" (world_of [] authored_scripts)
      = (Returned, w') ∧
    authored_scripts !! "20240115143022_users.sql" = Some users_sql ∧
    fs w' !! example_dir = Some dir' ∧
    dir' !! "20240115143022_users.sql" = Some TEMPLATE.
Proof.
  destruct (generateMigration_overwrites example_dir "users" "migration"
              (world_of [] authored_scripts) authored_scripts users_sql)
    as (w' & dir' & Hrun & _ & Hdir & Hfile & _).
  - done.
  - reflexivity.
  - reflexivity.
  - exists w', dir'. split; [exact Hrun|]. split; [reflexivity|].
    split; [exact Hdir|exact Hfile].
Defined.

(** The scenario of the specification: one script, an empty ledger; Up runs
    the CREATE and records the version, Down runs the DROP and removes the
    row. *)
Example up_then_down_scenario :
  ∃ w1 w2,
    migrateUp accept_all (Some pool) example_dir "migration"
      (world_of [] {[ "20240101000000_init.sql" := init_sql ]}) = (Returned, w1) ∧
    applied "migration" (database w1) = ["20240101000000"] ∧
    migrateDown accept_all (Some pool) example_dir "migration" w1 = (Returned, w2) ∧
    applied "migration" (database w2) = [] ∧
    executed (database w2) = ["
CREATE TABLE t(id int);
"; "
DROP TABLE t;
"].
Proof.
  eexists _, _. split; [vm_compute; reflexivity|].
  split; [vm_compute; reflexivity|].
  split; [vm_compute; reflexivity|].
  split; vm_compute; reflexivity.
Qed.

(** * Further properties *)

(** ** [getArg] *)

Lemma find_first {A} (P : A → bool) pre x post :
  Forall (λ a, P a = false) pre → P x = true →
  List.find P (pre ++ x :: post) = Some x.
Proof.
  intros Hpre Hx. induction Hpre as [|a pre Ha _ IH]; simpl; [by rewrite Hx|].
  by rewrite Ha.
Qed.

Lemma find_absent {A} (P : A → bool) l :
  Forall (λ a, P a = false) l → List.find P l = None.
Proof. intros H. induction H as [|a l Ha _ IH]; simpl; [done|]. by rewrite Ha. Qed.

(** A separator of one character, absent from [pre], is first met right
    after [pre]. *)
Lemma first_split_char c pre rest :
  ¬ occurs (String c "") pre →
  first_split (String c "") (pre +:+ String c "" +:+ rest) pre rest.
Proof.
  intros Hno. split; [done|]. intros a b H.
  destruct (decide (b = "")) as [|Hb]; [done|]. exfalso.
  rewrite <- str_app_assoc in H. symmetry in H.
  apply str_app_eq_app_le in H as (x & -> & _).
  - apply Hno. exists a, x. by rewrite str_app_assoc.
  - apply (f_equal String.length) in H. rewrite !str_length_app in H.
    destruct b; [done|]. simpl in H. rewrite !str_length_app. simpl. lia.
Qed.

Lemma not_occurs_flag key : ¬ occurs "=" key → ¬ occurs "=" ("--" +:+ key).
Proof.
  intros Hno (a & b & H). apply Hno.
  destruct a as [|c1 [|c2 a]]; [done|done|].
  rewrite !str_app_cons in H. injection H as _ _ H. by exists a, b.
Qed.

(** X1. For a key without [=], [getArg] gives the text that follows [--key=]
    in the first argument that starts so, up to the next [=] of that
    argument or to its end; later arguments of the same key are ignored,
    and so is the default, also when that text is empty. *)
Theorem getArg_value argv key defaultValue pre rest post :
  argv = pre ++ ("--" +:+ key +:+ "=" +:+ rest) :: post →
  Forall (λ a, Js.startsWith a ("--" +:+ key +:+ "=") = false) pre →
  ¬ occurs "=" key →
  ∃ tail,
    rest = getArg argv key defaultValue +:+ tail ∧
    ¬ occurs "=" (getArg argv key defaultValue) ∧
    (tail = "" ∨ Js.startsWith tail "=" = true).
Proof.
  intros -> Hpre Hkey. unfold getArg.
  rewrite (find_first _ pre _ post Hpre)
    by (rewrite <- !str_app_assoc; apply startsWith_app).
  rewrite <- (str_app_assoc "--" key).
  rewrite (split_first "=" _ ("--" +:+ key) rest) by
    (done || by apply first_split_char, not_occurs_flag).
  destruct (split_head "=" rest) as (piece & tail & Hpiece & -> & Hno & Htail);
    [done|].
  change ((?x :: ?l) !! 1%nat) with (l !! 0%nat). rewrite Hpiece. simpl.
  by exists tail.
Qed.

Lemma getArg_value_witness :
  getArg ["node"; "index.js"; "--type=seed"; "--name=a=b"; "--name=c"] "name" "x" = "a" ∧
  getArg ["node"; "index.js"; "--action="] "action" "up" = "".
Proof.
  split.
  - destruct (getArg_value ["node"; "index.js"; "--type=seed"; "--name=a=b"; "--name=c"]
                "name" "x" ["node"; "index.js"; "--type=seed"] "a=b" ["--name=c"])
      as (tail & _ & _ & _).
    + reflexivity.
    + repeat constructor.
    + intros (a & b & H). vm_compute in H.
      repeat (destruct a as [|? a]; [discriminate|]; injection H as _ H).
      by destruct a.
    + reflexivity.
  - reflexivity.
Defined.

(** X2. Without an argument that starts with [--key=], [getArg] gives the
    default: an argument of another key, of a key that only starts like
    this one, or of this key without [=] does not count. *)
Theorem getArg_default argv key defaultValue :
  Forall (λ a, ¬ ∃ rest, a = "--" +:+ key +:+ "=" +:+ rest) argv →
  getArg argv key defaultValue = defaultValue.
Proof.
  intros H. unfold getArg. rewrite find_absent; [done|].
  eapply Forall_impl; [exact H|]. simpl. intros a Ha.
  destruct (Js.startsWith a _) eqn:Hs; [|done]. exfalso. apply Ha.
  apply startsWith_inv in Hs as [r ->]. exists r. by rewrite !str_app_assoc.
Qed.

Lemma getArg_default_witness :
  getArg ["node"; "index.js"; "--names=a"; "--name"; "--type=seed"] "name" "x" = "x".
Proof.
  apply getArg_default. repeat constructor; intros [rest H]; vm_compute in H;
    repeat (destruct rest as [|? rest]; try discriminate).
Defined.

(** ** The UP body, and scripts in the layout of the template *)

Lemma startsWith_marker_cases tail :
  (tail = "" ∨ Js.startsWith tail DOWN_MARKER = true
   ∨ Js.startsWith tail UP_MARKER = true) →
  tail = "" ∨ ∃ m', m' ∈ markers ∧ Js.startsWith tail m' = true.
Proof.
  intros [?|[H|H]]; [by left|right..].
  - exists DOWN_MARKER. split; [right; by left|done].
  - exists UP_MARKER. split; [by left|done].
Qed.

(** With an UP marker, the UP body starts right after its leftmost
    occurrence and stops before the next marker of either kind. *)
Lemma extractUp_present s pre rest :
  first_split UP_MARKER s pre rest →
  ∃ tail, rest = extractUp s +:+ tail ∧
    ¬ occurs UP_MARKER (extractUp s) ∧ ¬ occurs DOWN_MARKER (extractUp s) ∧
    (tail = "" ∨ Js.startsWith tail DOWN_MARKER = true
     ∨ Js.startsWith tail UP_MARKER = true).
Proof.
  intros Hs. unfold extractUp.
  rewrite (split_first _ _ _ _ UP_MARKER_nonempty Hs).
  destruct (split_head UP_MARKER rest UP_MARKER_nonempty)
    as (r1 & t1 & Hr1 & -> & Hno1 & Ht1).
  change ((pre :: ?l) !! 1%nat) with (l !! 0%nat). rewrite Hr1.
  destruct (split_head DOWN_MARKER r1 DOWN_MARKER_nonempty)
    as (r & t & Hr & -> & Hno & Ht).
  rewrite or_empty_Some, Hr, or_empty_Some.
  exists (t +:+ t1). rewrite str_app_assoc. split; [done|].
  split; [by intros H; apply Hno1, occurs_app_l|]. split; [done|].
  destruct Ht as [->|Ht].
  - rewrite str_app_nil_l. destruct Ht1 as [->|Ht1]; auto.
  - right; left. apply startsWith_inv in Ht as [x ->].
    rewrite str_app_assoc. apply startsWith_app.
Qed.

(** X3. The UP body is empty when the UP marker is absent; otherwise it is
    the text after the leftmost UP marker up to, and not including, the next
    UP or DOWN marker, or up to the end of the file when no marker follows.
    What precedes the UP marker is not part of it. *)
Theorem extractUp_spec s :
  (¬ occurs UP_MARKER s → extractUp s = "") ∧
  (∀ pre rest, first_split UP_MARKER s pre rest →
     ∃ tail, rest = extractUp s +:+ tail ∧
       (tail = "" ∨ Js.startsWith tail DOWN_MARKER = true
        ∨ Js.startsWith tail UP_MARKER = true) ∧
       (∀ m a b, m ∈ markers → rest = a +:+ m +:+ b →
                 String.length (extractUp s) ≤ String.length a)).
Proof.
  split.
  - intros H. unfold extractUp.
    by rewrite (split_absent _ _ UP_MARKER_nonempty H).
  - intros pre rest Hs.
    destruct (extractUp_present s pre rest Hs) as (tail & Heq & HnoU & HnoD & Ht).
    exists tail. repeat (split; [done|]).
    intros m a b Hm Hocc. apply (first_marker _ tail m a b Hm).
    + unfold markers in Hm.
      repeat (apply elem_of_cons in Hm as [->|Hm]); [done..|].
      by apply elem_of_nil in Hm.
    + by apply startsWith_marker_cases.
    + by rewrite <- Heq.
Qed.

Lemma extractUp_spec_witness :
  ∃ tail, ";CREATE TABLE t(id int);-- +migrator DOWN;DROP TABLE t;"
          = extractUp "notes-- +migrator UP;CREATE TABLE t(id int);-- +migrator DOWN;DROP TABLE t;" +:+ tail ∧
    (tail = "" ∨ Js.startsWith tail DOWN_MARKER = true
     ∨ Js.startsWith tail UP_MARKER = true).
Proof.
  destruct (extractUp_spec
    "notes-- +migrator UP;CREATE TABLE t(id int);-- +migrator DOWN;DROP TABLE t;")
    as [_ H].
  destruct (H "notes" ";CREATE TABLE t(id int);-- +migrator DOWN;DROP TABLE t;")
    as (tail & Heq & Ht & _).
  - split; [reflexivity|]. intros a b Hab.
    apply (f_equal String.length) in Hab as Hlen.
    rewrite !str_length_app in Hlen. apply str_length_zero.
    assert (String.length "notes" ≤ String.length a); [|simpl in *; lia].
    apply (first_marker "notes" UP_MARKER UP_MARKER a b).
    + by left.
    + intros (x & y & Hxy). apply (f_equal String.length) in Hxy.
      rewrite !str_length_app in Hxy. simpl in Hxy. lia.
    + right. exists UP_MARKER. split; [by left|reflexivity].
    + exact Hab.
  - exists tail. split; assumption.
Defined.

(** A marker that does not occur in [pre] is first met right after it. *)
Lemma first_split_marker m pre rest :
  m ∈ markers → ¬ occurs m pre → first_split m (pre +:+ m +:+ rest) pre rest.
Proof.
  intros Hm Hno. split; [done|]. intros a b H.
  assert (String.length pre ≤ String.length a) as Hle.
  { apply (first_marker pre m m a b Hm Hno); [|done].
    right. exists m. split; [done|].
    rewrite <- (str_app_nil_r m) at 1. apply startsWith_app. }
  apply (f_equal String.length) in H. rewrite !str_length_app in H.
  apply str_length_zero. lia.
Qed.

(** The text before the first marker is determined. *)
Lemma before_marker_le r1 t1 r2 t2 :
  r1 +:+ t1 = r2 +:+ t2 → no_markers r2 →
  (t1 = "" ∨ ∃ m', m' ∈ markers ∧ Js.startsWith t1 m' = true) →
  (t2 = "" ∨ ∃ m', m' ∈ markers ∧ Js.startsWith t2 m' = true) →
  String.length r2 ≤ String.length r1.
Proof.
  intros Heq H2 [->|(m' & Hm' & Hs)] Ht2.
  - rewrite str_app_nil_r in Heq. rewrite Heq, str_length_app. lia.
  - apply startsWith_inv in Hs as [c ->].
    by apply (first_marker r2 t2 m' r1 c Hm' (H2 _ Hm')).
Qed.

Lemma before_marker_unique r1 t1 r2 t2 :
  r1 +:+ t1 = r2 +:+ t2 → no_markers r1 → no_markers r2 →
  (t1 = "" ∨ ∃ m', m' ∈ markers ∧ Js.startsWith t1 m' = true) →
  (t2 = "" ∨ ∃ m', m' ∈ markers ∧ Js.startsWith t2 m' = true) →
  r1 = r2.
Proof.
  intros Heq H1 H2 Ht1 Ht2.
  pose proof (before_marker_le _ _ _ _ Heq H2 Ht1 Ht2) as Hle1.
  pose proof (before_marker_le _ _ _ _ (eq_sym Heq) H1 Ht2 Ht1) as Hle2.
  apply str_app_eq_app_le in Heq as (x & -> & _); [|done].
  rewrite str_length_app in Hle1.
  rewrite (str_length_zero x) by lia. by rewrite str_app_nil_r.
Qed.

(** A marker that occurs neither in [x] nor in [y] does not occur in [x],
    the other marker, [y]. *)
Lemma not_occurs_across m m' x y :
  m ∈ markers → m' ∈ markers → m ≠ m' →
  ¬ occurs m x → ¬ occurs m y → ¬ occurs m (x +:+ m' +:+ y).
Proof.
  intros Hm Hm' Hne Hx Hy (a & b & Heq).
  assert (String.length x ≤ String.length a) as Hle.
  { apply (first_marker x (m' +:+ y) m a b Hm Hx); [|done].
    right. exists m'. split; [done|apply startsWith_app]. }
  apply str_app_eq_app_le in Heq as (a' & -> & Heq); [|done].
  destruct (decide (String.length m' ≤ String.length a')) as [Hlong|Hshort].
  - apply str_app_eq_app_le in Heq as (a'' & -> & ->); [|done].
    apply Hy. by exists a'', b.
  - symmetry in Heq. apply str_app_eq_app_le in Heq as (z & -> & Hz); [|lia].
    destruct (decide (a' = "")) as [->|Ha'].
    + rewrite str_app_nil_l in Hm', Hne. clear Hshort Hle.
      unfold markers in Hm, Hm'.
      repeat (apply elem_of_cons in Hm as [->|Hm]); [| |by apply elem_of_nil in Hm];
        (repeat (apply elem_of_cons in Hm' as [->|Hm']);
           [| |by apply elem_of_nil in Hm']);
        first [done | vm_compute in Hz; discriminate].
    + apply (markers_do_not_overlap (a' +:+ z) m a' z y b Hm' Hm eq_refl Ha');
        [|done].
      intros ->. rewrite str_app_nil_r in Hshort. lia.
Qed.

(** X4. A script in the layout of the template, with text free of markers
    before the UP marker, between the two markers and after the DOWN marker:
    its UP body is the text between the markers and its DOWN body the text
    after the DOWN marker. *)
Theorem script_layout pre up down :
  no_markers pre → no_markers up → no_markers down →
  extractUp (pre +:+ UP_MARKER +:+ up +:+ DOWN_MARKER +:+ down) = up ∧
  extractDown (pre +:+ UP_MARKER +:+ up +:+ DOWN_MARKER +:+ down) = down.
Proof.
  intros Hpre Hup Hdown.
  assert (UP_MARKER ∈ markers) as HU by by left.
  assert (DOWN_MARKER ∈ markers) as HD by (right; by left).
  split.
  - destruct (extractUp_present
                (pre +:+ UP_MARKER +:+ up +:+ DOWN_MARKER +:+ down)
                pre (up +:+ DOWN_MARKER +:+ down))
      as (tail & Heq & HnoU & HnoD & Ht).
    { apply first_split_marker; auto. }
    symmetry. eapply (before_marker_unique up (DOWN_MARKER +:+ down) _ tail);
      [done|done| | |by apply startsWith_marker_cases].
    + intros m Hm. unfold markers in Hm.
      repeat (apply elem_of_cons in Hm as [->|Hm]); [done..|].
      by apply elem_of_nil in Hm.
    + right. exists DOWN_MARKER. split; [done|apply startsWith_app].
  - destruct (extractDown_present
                (pre +:+ UP_MARKER +:+ up +:+ DOWN_MARKER +:+ down)
                (pre +:+ UP_MARKER +:+ up) down)
      as (tail & Heq & HnoD & HnoU & Ht).
    { rewrite <- !str_app_assoc. rewrite (str_app_assoc pre).
      rewrite (str_app_assoc _ DOWN_MARKER).
      apply first_split_marker; [done|].
      apply not_occurs_across; auto. }
    symmetry. eapply (before_marker_unique down "" _ tail);
      [by rewrite str_app_nil_r|done| |by left|by apply startsWith_marker_cases].
    intros m Hm. unfold markers in Hm.
    repeat (apply elem_of_cons in Hm as [->|Hm]); [done..|].
    by apply elem_of_nil in Hm.
Qed.

Lemma script_layout_witness :
  extractUp init_sql = "
CREATE TABLE t(id int);
" ∧ extractDown init_sql = "
DROP TABLE t;
".
Proof.
  apply (script_layout "" "
CREATE TABLE t(id int);
" "
DROP TABLE t;
");
    intros m Hm; unfold markers in Hm;
    repeat (apply elem_of_cons in Hm as [->|Hm]);
    try (apply not_occurs_of_split; [discriminate|vm_compute; reflexivity]);
    apply elem_of_nil in Hm; destruct Hm.
Defined.

(** ** Frames: what a run leaves alone *)

Section Frames.

Variable accepts : list string → string → bool.

Lemma keeps_bind {A B} P (m : Eff A) (f : A → Eff B) :
  keeps P m → (∀ a, keeps P (f a)) → keeps P (m ≫= f).
Proof.
  intros Hm Hf w HP. unfold mbind, eff_bind. specialize (Hm w HP).
  destruct (m w) as [[a|e] w1]; simpl in *; [by apply Hf|done].
Qed.

Lemma keeps_same {A} P (m : Eff A) : (∀ w, (m w).2 = w) → keeps P m.
Proof. intros H w HP. by rewrite H. Qed.

Lemma readdirSync_world scriptsDir w : (readdirSync scriptsDir w).2 = w.
Proof. unfold readdirSync. by case_match. Qed.

Lemma keeps_try_exit P label body : keeps P body → keeps P (try_exit label body).
Proof.
  intros H w HP. specialize (H w HP). unfold try_exit.
  by destruct (body w) as [[[]|e] w1].
Qed.

Lemma migrateUp_loop_keeps P scriptsDir type files :
  (∀ q, of_kind type q → keeps P (query accepts q)) →
  keeps P (migrateUp_loop accepts scriptsDir type files).
Proof.
  intros Hq. induction files as [|f files IH]; [by apply keeps_same|].
  change (migrateUp_loop accepts scriptsDir type (f :: files)) with
    (migrationScripts ← readFileSync scriptsDir f;
     _ ← query accepts (Script (extractUp migrationScripts));
     _ ← query accepts (InsertVersion (table_of type) (version_of f));
     migrateUp_loop accepts scriptsDir type files).
  apply keeps_bind; [apply keeps_same, readFileSync_world|]. intros c.
  apply keeps_bind; [apply Hq; by left|]. intros _.
  apply keeps_bind; [apply Hq; by right|]. done.
Qed.

Lemma migrateUp_keeps P db scriptsDir type :
  (∀ q, of_kind type q → keeps P (query accepts q)) →
  keeps P (migrateUp accepts db scriptsDir type).
Proof.
  intros Hq. destruct db as [p|]; [|by intros w HP].
  apply keeps_try_exit, keeps_bind; [apply Hq; by right|]. intros res.
  apply keeps_bind; [apply keeps_same, readdirSync_world|]. intros names.
  by apply migrateUp_loop_keeps.
Qed.

Lemma migrateDown_keeps P db scriptsDir type :
  (∀ q, of_kind type q → keeps P (query accepts q)) →
  keeps P (migrateDown accepts db scriptsDir type).
Proof.
  intros Hq. unfold migrateDown. case_decide; [by intros w HP|].
  destruct db as [p|]; [|by intros w HP].
  apply keeps_try_exit, keeps_bind; [apply Hq; by right|]. intros res.
  apply keeps_bind.
  { destruct (rows res !! 0%nat); by apply keeps_same. }
  intros row.
  apply keeps_bind; [apply keeps_same, readdirSync_world|]. intros names.
  destruct (find_script _ names); [|by apply keeps_same].
  apply keeps_bind; [apply keeps_same, readFileSync_world|]. intros c.
  apply keeps_bind; [apply Hq; by left|]. intros _.
  apply keeps_bind; [apply Hq; by right|]. intros _. by apply keeps_same.
Qed.

Lemma migrateReset_loop_keeps P scriptsDir scripts :
  (∀ sql, keeps P (query accepts (Script sql))) →
  keeps P (migrateReset_loop accepts scriptsDir scripts).
Proof.
  intros Hq. induction scripts as [|f scripts IH]; [by apply keeps_same|].
  change (migrateReset_loop accepts scriptsDir (f :: scripts)) with
    (migrationScripts ← readFileSync scriptsDir f;
     _ ← query accepts (Script (extractDown migrationScripts));
     migrateReset_loop accepts scriptsDir scripts).
  apply keeps_bind; [apply keeps_same, readFileSync_world|]. intros c.
  apply keeps_bind; [apply Hq|]. done.
Qed.

Lemma migrateReset_keeps P db scriptsDir type :
  (∀ q, keeps P (query accepts q)) →
  keeps P (migrateReset accepts db scriptsDir type).
Proof.
  intros Hq. destruct db as [p|]; [|by intros w HP].
  apply keeps_try_exit. case_decide.
  { apply keeps_bind; [apply Hq|]. intros _. by apply keeps_same. }
  apply keeps_bind; [apply Hq|]. intros res.
  apply keeps_bind; [apply keeps_same, readdirSync_world|]. intros names.
  cbv zeta. case_decide; [by apply keeps_same|].
  apply keeps_bind; [by apply migrateReset_loop_keeps|]. intros _.
  apply keeps_bind; [apply Hq|]. intros _.
  apply keeps_bind; [apply Hq|]. intros _. by apply keeps_same.
Qed.

Lemma query_fs q w : fs (query accepts q w).2 = fs w.
Proof. unfold query. by destruct (answer _ _ _) as [[[??]?]|]. Qed.

Lemma query_clock q w :
  clock (database (query accepts q w).2) = S (clock (database w)).
Proof. unfold query. by destruct (answer _ _ _) as [[[??]?]|]. Qed.

(** A statement leaves the tables it does not name as they are. *)
Lemma query_other_table q t w :
  query_table q ≠ Some t →
  tables (database (query accepts q w).2) !! t = tables (database w) !! t.
Proof.
  intros Hne. unfold query.
  destruct (answer accepts q (database w)) as [[[tbs ex] res]|] eqn:Ha; [|done].
  simpl. destruct q; simpl in Ha, Hne; repeat case_match; simplify_option_eq;
    rewrite ?lookup_insert_ne, ?lookup_delete_ne by congruence; done.
Qed.

(** X5. Up and Down of one kind leave every table other than the ledger of
    that kind as it was, however they end: a run on migrations does not touch
    the seeds ledger, nor a run on seeds the migrations ledger. *)
Theorem migrateUp_migrateDown_other_tables db scriptsDir type t w :
  t ≠ table_of type →
  tables (database (migrateUp accepts db scriptsDir type w).2) !! t
    = tables (database w) !! t ∧
  tables (database (migrateDown accepts db scriptsDir type w).2) !! t
    = tables (database w) !! t.
Proof.
  intros Ht.
  assert (∀ q, of_kind type q →
               keeps (λ w', tables (database w') !! t = tables (database w) !! t)
                 (query accepts q)) as Hq.
  { intros q Hkind w1 H1. rewrite query_other_table; [done|].
    destruct Hkind as [Hk|Hk]; rewrite Hk; congruence. }
  split.
  - by apply (migrateUp_keeps _ db scriptsDir type Hq w).
  - by apply (migrateDown_keeps _ db scriptsDir type Hq w).
Qed.

(** *** The rows of the ledgers stay in order *)

Lemma StronglySorted_filter {A} (R : relation A) (P : A → bool) l :
  StronglySorted R l → StronglySorted R (List.filter P l).
Proof.
  induction 1 as [|x l Hs IH Hall]; simpl; [constructor|].
  destruct (P x); [|done]. constructor; [done|].
  rewrite Forall_forall in Hall |- *. intros y Hy.
  apply Hall. apply list_elem_of_In in Hy. apply filter_In in Hy as [Hy _].
  by apply list_elem_of_In.
Qed.

Lemma Forall_filter_keep {A} (Q : A → Prop) (P : A → bool) l :
  Forall Q l → Forall Q (List.filter P l).
Proof.
  rewrite !Forall_forall. intros H y Hy. apply H.
  apply list_elem_of_In in Hy. apply filter_In in Hy as [Hy _].
  by apply list_elem_of_In.
Qed.

Lemma ledger_wf_later d d' tb :
  clock d ≤ clock d' → ledger_wf d tb → ledger_wf d' tb.
Proof.
  intros Hle (Hord & Hid). split; [|done].
  by apply (recorded_in_order_later d).
Qed.

Lemma ledger_wf_empty d n : ledger_wf d (mkTable [] n).
Proof. repeat split; constructor. Qed.

Lemma ledger_wf_insert d d' tb v :
  clock d' = S (clock d) → ledger_wf d tb →
  ledger_wf d' (insert_row v (clock d) tb).
Proof.
  intros Hclock (Hord & Hsorted & Hbelow).
  split; [by apply (recorded_in_order_insert d)|].
  rewrite Forall_forall in Hbelow. unfold insert_row. simpl. split.
  - apply StronglySorted_app. split; [|split; [done|repeat constructor]].
    intros x y Hx ->%list_elem_of_singleton. simpl. by apply Hbelow.
  - apply Forall_app. split.
    + apply Forall_forall. intros r Hr. specialize (Hbelow r Hr). lia.
    + apply Forall_singleton. simpl. lia.
Qed.

Lemma ledger_wf_delete d tb v : ledger_wf d tb → ledger_wf d (delete_rows v tb).
Proof.
  intros ((Hs & Hpast) & Hsorted & Hbelow). unfold delete_rows.
  repeat split; simpl;
    first [by apply StronglySorted_filter | by apply Forall_filter_keep].
Qed.

(** Every statement keeps the ledgers well formed. *)
Lemma query_keeps_db_wf q : keeps (λ w, db_wf (database w)) (query accepts q).
Proof.
  intros w Hwf t tb. unfold query.
  assert (∀ tb0, ledger_wf (database w) tb0 →
                 ∀ tbs ex, ledger_wf (mkDB tbs ex (S (clock (database w)))
                                        (issued (database w) ++ [q])) tb0) as Hlater.
  { intros tb0 H tbs ex. apply (ledger_wf_later (database w)); [simpl; lia|done]. }
  destruct (answer accepts q (database w)) as [[[tbs ex] res]|] eqn:Ha; simpl;
    [|intros H; by apply Hlater, (Hwf t)].
  intros Hlook. destruct q as [t0|t0|t0|t0 v|t0 v|t0|t0|sql]; simpl in Ha.
  - injection Ha as <- <- <-.
    destruct (tables (database w) !! t0) eqn:H0; [by apply Hlater, (Hwf t)|].
    apply lookup_insert_Some in Hlook as [[_ <-]|[_ Hlook]];
      [apply ledger_wf_empty|by apply Hlater, (Hwf t)].
  - destruct (tables (database w) !! t0); simplify_eq/=. by apply Hlater, (Hwf t).
  - destruct (tables (database w) !! t0); simplify_eq/=. by apply Hlater, (Hwf t).
  - destruct (tables (database w) !! t0) as [tb0|] eqn:H0; simplify_eq/=.
    apply lookup_insert_Some in Hlook as [[_ <-]|[_ Hlook]];
      [|by apply Hlater, (Hwf t)].
    apply (ledger_wf_insert (database w)); [done|by apply (Hwf t0)].
  - destruct (tables (database w) !! t0) as [tb0|] eqn:H0; simplify_eq/=.
    apply lookup_insert_Some in Hlook as [[_ <-]|[_ Hlook]];
      [|by apply Hlater, (Hwf t)].
    apply Hlater, ledger_wf_delete. by apply (Hwf t0).
  - destruct (tables (database w) !! t0) as [tb0|] eqn:H0; simplify_eq/=.
    apply lookup_insert_Some in Hlook as [[_ <-]|[_ Hlook]];
      [apply ledger_wf_empty|by apply Hlater, (Hwf t)].
  - injection Ha as <- <- <-. apply lookup_delete_Some in Hlook as [_ Hlook].
    by apply Hlater, (Hwf t).
  - destruct (accepts _ sql); simplify_eq/=. by apply Hlater, (Hwf t).
Qed.

(** What [generateMigration] changes of the world is its file system. *)
Lemma generateMigration_world scriptsDir name type w :
  ∃ f, (generateMigration scriptsDir name type w).2 = set_fs f w.
Proof.
  destruct (decide (name = "")) as [->|Hname].
  - exists (fs w). by destruct w.
  - rewrite (generateMigration_result _ _ _ _ Hname). cbv zeta.
    destruct (_ !! dirname _); by eexists.
Qed.

(** A property that all statements keep, for an action that talks to the
    server, and that does not depend on the file system, for New, is kept
    by a whole run from the command line. *)
Lemma runMigrations_keeps P cwd action driver type name :
  (action ≠ "new" → ∀ q, keeps P (query accepts q)) →
  (action = "new" → ∀ w f, P w → P (set_fs f w)) →
  keeps P (runMigrations accepts cwd action driver type name).
Proof.
  intros Hq Hfs w HP. unfold runMigrations.
  destruct (negb _); [done|]. destruct (_ && _); [done|].
  set (dir := cwd ++ ["db"; driver;
                      if bool_decide (type = "migration")
                      then "migration" else "seed"]).
  assert (∀ pg w1, P w1 →
    P (match
         (if bool_decide (action = "up")
          then Some (migrateUp accepts pg dir type)
          else if bool_decide (action = "down")
          then Some (migrateDown accepts pg dir type)
          else if bool_decide (action = "reset")
          then Some (migrateReset accepts pg dir type)
          else if bool_decide (action = "new")
          then Some (generateMigration dir name type)
          else None)
       with
       | Some act => match act w1 with
                     | (Returned, w2) => (0, w2)
                     | (Threw e, w2) => (1, w2)
                     | (Exited code _ _, w2) => (code, w2)
                     end
       | None => (1, w1)
       end).2) as Hact.
  { intros pg w1 H1.
    repeat case_bool_decide; simpl; try done.
    - assert (action ≠ "new") as Hne by (by subst action).
      pose proof (migrateUp_keeps P pg dir type (λ q _, Hq Hne q) w1 H1) as Hk.
      by destruct (migrateUp accepts pg dir type w1) as [[] ?].
    - assert (action ≠ "new") as Hne by (by subst action).
      pose proof (migrateDown_keeps P pg dir type (λ q _, Hq Hne q) w1 H1) as Hk.
      by destruct (migrateDown accepts pg dir type w1) as [[] ?].
    - assert (action ≠ "new") as Hne by (by subst action).
      pose proof (migrateReset_keeps P pg dir type (Hq Hne) w1 H1) as Hk.
      by destruct (migrateReset accepts pg dir type w1) as [[] ?].
    - destruct (generateMigration_world dir name type w1) as [f Hf].
      destruct (generateMigration dir name type w1) as [[] w2]; simpl in *;
        subst w2; by apply Hfs. }
  cbv zeta. destruct (bool_decide_reflect (action ≠ "new")) as [Hnew|Hnew].
  - pose proof (Hq Hnew (CreateTableIfNotExists (table_of type)) w HP) as H1.
    destruct (query accepts (CreateTableIfNotExists (table_of type)) w)
      as [[r|e] w1] eqn:Hcreate; simpl in H1.
    + rewrite (bind_ok _ _ _ _ _ Hcreate). by apply Hact.
    + by rewrite (bind_throw _ _ _ _ _ Hcreate).
  - by apply Hact.
Qed.

(** X6. However a run from the command line ends, it keeps the ledgers well
    formed: in every table the ids are increasing and below the next value
    of the sequence, and the rows are in the order of their recording, all
    recorded before the present tick of the server clock. *)
Theorem runMigrations_keeps_db_wf cwd action driver type name w :
  db_wf (database w) →
  db_wf (database (runMigrations accepts cwd action driver type name w).2).
Proof.
  apply (runMigrations_keeps (λ w, db_wf (database w))); [|done].
  intros _. apply query_keeps_db_wf.
Qed.

(** X7. A run from the command line for an action other than New leaves
    the file system as it was, and a run for New leaves the database as it
    was and sends it no statement, however the run ends. *)
Theorem runMigrations_frames cwd action driver type name w :
  (action ≠ "new" →
   fs (runMigrations accepts cwd action driver type name w).2 = fs w) ∧
  (action = "new" →
   database (runMigrations accepts cwd action driver type name w).2 = database w).
Proof.
  split; intros Haction.
  - apply (runMigrations_keeps (λ w', fs w' = fs w)); [|done|done].
    intros _ q w1 H1. by rewrite query_fs.
  - apply (runMigrations_keeps (λ w', database w' = database w)); [done| |done].
    by intros _ w1 f H1.
Qed.

End Frames.

Lemma migrateUp_migrateDown_other_tables_witness :
  let w := world_of [init_row] two_scripts in
  "node_migrator_seeds" ≠ table_of "migration" ∧
  tables (database (migrateUp accept_all (Some pool) example_dir "migration" w).2)
    !! "node_migrator_seeds" = tables (database w) !! "node_migrator_seeds" ∧
  tables (database (migrateDown accept_all (Some pool) example_dir "migration" w).2)
    !! "node_migrator_seeds" = tables (database w) !! "node_migrator_seeds".
Proof.
  intros w.
  assert ("node_migrator_seeds" ≠ table_of "migration") as Hne by by_compute.
  split; [exact Hne|].
  exact (migrateUp_migrateDown_other_tables accept_all (Some pool) example_dir
           "migration" "node_migrator_seeds" w Hne).
Defined.

Lemma runMigrations_keeps_db_wf_witness :
  let w := world_of [init_row; users_row] two_scripts in
  db_wf (database w) ∧
  db_wf (database (runMigrations accept_all ["srv"; "app"] "reset" "postgres"
                     "migration" "" w).2).
Proof.
  intros w.
  assert (db_wf (database w)) as Hwf.
  { intros t tb Ht. unfold w, world_of in Ht. simpl in Ht.
    apply lookup_insert_Some in Ht as [[_ <-]|[_ Ht]].
    - unfold ledger_wf, recorded_in_order, older. simpl. by_compute.
    - apply lookup_singleton_Some in Ht as [_ <-].
      unfold ledger_wf, recorded_in_order, older. simpl. by_compute. }
  split; [exact Hwf|].
  exact (runMigrations_keeps_db_wf accept_all ["srv"; "app"] "reset" "postgres"
           "migration" "" w Hwf).
Defined.

Lemma runMigrations_frames_witness :
  let w := world_of [init_row] two_scripts in
  fs (runMigrations accept_all ["srv"; "app"] "up" "postgres" "migration" "" w).2
    = fs w ∧
  database (runMigrations accept_all ["srv"; "app"] "new" "postgres" "migration"
              "users" w).2 = database w.
Proof.
  intros w. split.
  - destruct (runMigrations_frames accept_all ["srv"; "app"] "up" "postgres"
                "migration" "" w) as [H _].
    apply H. by_compute.
  - destruct (runMigrations_frames accept_all ["srv"; "app"] "new" "postgres"
                "migration" "users" w) as [_ H].
    by apply H.
Defined.

(** ** File names, versions and timestamps *)

Lemma rev_app_app s t : String.rev_app s t = String.rev_app s "" +:+ t.
Proof.
  revert t. induction s as [|c s IH]; intros t; simpl; [done|].
  rewrite (IH (String c t)), (IH (String c "")).
  by rewrite str_app_assoc.
Qed.

Lemma rev_app_distr s t : String.rev (s +:+ t) = String.rev t +:+ String.rev s.
Proof.
  unfold String.rev. induction s as [|c s IH].
  - by rewrite str_app_nil_l, str_app_nil_r.
  - rewrite str_app_cons. simpl.
    rewrite (rev_app_app (s +:+ t)), IH, (rev_app_app s (String c "")).
    by rewrite str_app_assoc.
Qed.

Lemma endsWith_app s p : Js.endsWith (s +:+ p) p = true.
Proof. unfold Js.endsWith. rewrite rev_app_distr. apply startsWith_app. Qed.

Lemma version_of_prefix v rest :
  ¬ occurs "_" v → version_of (v +:+ "_" +:+ rest) = v.
Proof.
  intros Hv. unfold version_of.
  by rewrite (split_first "_" _ v rest) by (done || by apply first_split_char).
Qed.

Lemma version_of_whole f : ¬ occurs "_" f → version_of f = f.
Proof. intros Hf. unfold version_of. by rewrite split_absent. Qed.

Lemma version_of_first_split f pre rest :
  first_split "_" f pre rest → version_of f = pre.
Proof. intros H. unfold version_of. by rewrite (split_first "_" f pre rest). Qed.

(** What [find] of [migrateDown] returns is an entry that ends in [.sql]
    and starts with the version and an underscore. *)
Lemma find_script_some v names g :
  find_script v names = Some g →
  g ∈ names ∧ Js.endsWith g ".sql" = true ∧ ∃ rest, g = v +:+ "_" +:+ rest.
Proof.
  intros H. apply find_some in H as [Hin H].
  apply andb_true_iff in H as [Hs He].
  apply startsWith_inv in Hs as [r ->].
  split; [by apply list_elem_of_In|]. split; [done|].
  exists r. by rewrite str_app_assoc.
Qed.

Lemma find_script_is_Some v names f rest :
  f ∈ names → f = v +:+ "_" +:+ rest → Js.endsWith f ".sql" = true →
  is_Some (find_script v names).
Proof.
  intros Hin -> He. unfold find_script.
  destruct (find _ names) as [g|] eqn:Hfind; [by eexists|].
  apply list_elem_of_In in Hin.
  pose proof (find_none _ _ Hfind _ Hin) as Hnone. simpl in Hnone.
  by rewrite He, <- str_app_assoc, startsWith_app in Hnone.
Qed.

(** X8. The version Up records for a script and the script Down looks for
    under that version: when the name of the script has an underscore, Down
    finds a script of the same version (the script itself or one that
    shares its version); when it has none, the version is the whole file
    name and Down never finds the script under it. *)
Theorem find_script_of_version names f :
  f ∈ names → Js.endsWith f ".sql" = true →
  (occurs "_" f →
   ∃ g, find_script (version_of f) names = Some g ∧ g ∈ names ∧
        version_of g = version_of f) ∧
  (¬ occurs "_" f →
   version_of f = f ∧ find_script (version_of f) names ≠ Some f).
Proof.
  intros Hin He. split; intros Hu.
  - destruct (first_or_absent "_" f) as [|(pre & rest & Hsplit)]; [done..|].
    rewrite (version_of_first_split _ _ _ Hsplit).
    pose proof (first_split_not_occurs "_" _ _ _ ltac:(done) Hsplit) as Hpre.
    destruct Hsplit as [Hf _].
    destruct (find_script_is_Some pre names f rest Hin Hf He) as [g Hg].
    exists g. split; [done|].
    apply find_script_some in Hg as (Hg & _ & r & ->).
    split; [done|]. by apply version_of_prefix.
  - rewrite (version_of_whole _ Hu). split; [done|]. intros Hfind.
    apply find_script_some in Hfind as (_ & _ & r & Hf).
    apply (f_equal String.length) in Hf. rewrite str_length_app in Hf.
    simpl in Hf. lia.
Qed.

Lemma replace_non_digits_all_digits s : all_digits (replace_non_digits s).
Proof.
  unfold all_digits. induction s as [|a s IH]; simpl; [constructor|].
  destruct (is_digit a) eqn:Ha; [|done]. simpl. by constructor.
Qed.

Lemma replace_non_digits_app s t :
  replace_non_digits (s +:+ t) = replace_non_digits s +:+ replace_non_digits t.
Proof.
  induction s as [|a s IH]; [by rewrite !str_app_nil_l|].
  rewrite str_app_cons. simpl. destruct (is_digit a); [|done].
  by rewrite str_app_cons, IH.
Qed.

Lemma replace_non_digits_id s : all_digits s → replace_non_digits s = s.
Proof.
  unfold all_digits. induction s as [|a s IH]; simpl; [done|].
  intros [Ha Hs]%Forall_cons. rewrite Ha. by rewrite IH.
Qed.

Lemma all_digits_no_char c s :
  is_digit c = false → all_digits s → ¬ occurs (String c "") s.
Proof.
  intros Hc Hs. rewrite <- (replace_non_digits_id s Hs).
  by apply replace_non_digits_only.
Qed.

Lemma after_line_one_line s : one_line s → after_line s = "".
Proof.
  unfold one_line. induction s as [|a s IH]; simpl; [done|].
  intros [Ha Hs]%Forall_cons. rewrite Ha. by apply IH.
Qed.

(** The first replacement cuts a text at its first dot, when the dot is
    followed by at least one character and the line ends with the text. *)
Lemma replace_dot_rest_fraction date frac :
  ¬ occurs "." date → frac ≠ "" → one_line frac →
  replace_dot_rest (date +:+ "." +:+ frac) = date.
Proof.
  intros Hdate Hfrac Hline. induction date as [|a date IH].
  - rewrite str_app_nil_l. destruct frac as [|c frac]; [done|].
    apply Forall_cons in Hline as [Hc Hline].
    change (replace_dot_rest ("." +:+ String c frac)) with
      (if is_line_terminator c
       then String "."%char (replace_dot_rest (String c frac))
       else after_line frac).
    rewrite Hc. by apply after_line_one_line.
  - rewrite str_app_cons. simpl. rewrite bool_decide_eq_false_2.
    + rewrite IH; [done|]. intros H. by apply Hdate, occurs_cons.
    + intros ->. apply Hdate. by exists "", date.
Qed.

(** X9. The timestamp of an instant in the format of [toISOString],
    [YYYY-MM-DDTHH:mm:ss.sssZ]: the digits of the date and of the time of
    day down to the second, in this order; the fraction of the second and
    the zone are dropped. *)
Theorem timestamp_of_iso y mo d h mi s frac :
  all_digits y → all_digits mo → all_digits d →
  all_digits h → all_digits mi → all_digits s →
  frac ≠ "" → one_line frac →
  timestamp_of (y +:+ "-" +:+ mo +:+ "-" +:+ d +:+ "T" +:+
                h +:+ ":" +:+ mi +:+ ":" +:+ s +:+ "." +:+ frac)
  = y +:+ mo +:+ d +:+ h +:+ mi +:+ s.
Proof.
  intros Hy Hmo Hd Hh Hmi Hs Hfrac Hline. unfold timestamp_of.
  set (date := y +:+ "-" +:+ mo +:+ "-" +:+ d +:+ "T" +:+
               h +:+ ":" +:+ mi +:+ ":" +:+ s).
  replace (y +:+ "-" +:+ mo +:+ "-" +:+ d +:+ "T" +:+
           h +:+ ":" +:+ mi +:+ ":" +:+ s +:+ "." +:+ frac)
    with (date +:+ "." +:+ frac) by (unfold date; by rewrite !str_app_assoc).
  assert (¬ occurs "." date) as Hdate.
  { unfold date. intros H.
    repeat (apply occurs_char_app in H as [H|H];
            [first [by apply (all_digits_no_char "."%char) in H
                   |by apply occurs_char_cons in H as [H|H%not_occurs_nil]]|]).
    by apply (all_digits_no_char "."%char) in H. }
  rewrite (replace_dot_rest_fraction _ _ Hdate Hfrac Hline). unfold date.
  rewrite !replace_non_digits_app.
  rewrite (replace_non_digits_id y), (replace_non_digits_id mo),
    (replace_non_digits_id d), (replace_non_digits_id h),
    (replace_non_digits_id mi), (replace_non_digits_id s) by done.
  change (replace_non_digits "-") with "".
  change (replace_non_digits "T") with "".
  change (replace_non_digits ":") with "".
  by rewrite !str_app_nil_l.
Qed.

Lemma script_name_endsWith timestamp name :
  Js.endsWith (script_name timestamp name) ".sql" = true.
Proof.
  unfold script_name.
  replace (timestamp +:+ "_" +:+ name +:+ ".sql")
    with ((timestamp +:+ "_" +:+ name) +:+ ".sql") by (by rewrite !str_app_assoc).
  apply endsWith_app.
Qed.

Lemma elem_of_pending_names versions names f :
  f ∈ pending versions names ↔
  f ∈ names ∧ Js.endsWith f ".sql" = true ∧ version_of f ∉ versions.
Proof.
  unfold pending, Js.sort, Js.includes. rewrite merge_sort_Permutation.
  rewrite list_elem_of_In, filter_In, <- list_elem_of_In.
  rewrite andb_true_iff, negb_true_iff, bool_decide_eq_false. tauto.
Qed.

(** X10. The file New writes for a name without path separator is a script
    for Up and for Down: its version is the timestamp, which is made of
    digits; Up takes it for pending exactly when the timestamp is not an
    applied version; and Down, asked for the timestamp, finds a script of
    that version. *)
Theorem generateMigration_names_a_script scriptsDir name type w :
  name ≠ "" → ¬ occurs "/" name →
  let ts := timestamp_of (date_now w) in
  let file := script_name ts name in
  ∃ w' dir',
    generateMigration scriptsDir name type w = (Returned, w') ∧
    fs w' !! scriptsDir = Some dir' ∧
    dir' !! file = Some TEMPLATE ∧
    all_digits ts ∧
    version_of file = ts ∧
    (∀ versions, file ∈ pending versions (entries dir') ↔ ts ∉ versions) ∧
    ∃ g, find_script ts (entries dir') = Some g ∧ version_of g = ts.
Proof.
  intros Hname Hsep ts file.
  assert (¬ occurs "_" ts) as Hts
    by (by apply (replace_non_digits_only "_"%char)).
  assert (version_of file = ts) as Hversion by (by apply version_of_prefix).
  eexists _, _. split; [by apply generateMigration_writes|].
  cbn [fs set_fs]. split; [apply lookup_insert_eq|]. fold ts. fold file.
  set (dir' := <[file := TEMPLATE]> _).
  assert (dir' !! file = Some TEMPLATE) as Hfile by apply lookup_insert_eq.
  split; [done|]. split; [apply replace_non_digits_all_digits|].
  split; [done|]. split.
  - intros versions. rewrite elem_of_pending_names, Hversion.
    pose proof (script_name_endsWith ts name) as He. fold file in He.
    split; [by intros (_ & _ & ?)|]. intros Hv.
    split; [apply elem_of_names; by eexists|done].
  - destruct (find_script_is_Some ts (entries dir') file (name +:+ ".sql"))
      as [g Hg]; [apply elem_of_names; by eexists|done
                 |apply script_name_endsWith|].
    exists g. split; [done|].
    apply find_script_some in Hg as (_ & _ & r & ->).
    by apply version_of_prefix.
Qed.

Lemma startsWith_longer a p q :
  Js.startsWith a p = false → Js.startsWith a (p +:+ q) = false.
Proof.
  revert a. induction p as [|c p IH]; intros a; [by destruct a|].
  rewrite str_app_cons. destruct a as [|b a]; [done|]. simpl.
  case_decide; [apply IH|done].
Qed.

Lemma getArg_no_flag argv key defaultValue :
  Forall (λ a, Js.startsWith a "--" = false) argv →
  getArg argv key defaultValue = defaultValue.
Proof.
  intros H. unfold getArg. rewrite find_absent; [done|].
  eapply Forall_impl; [exact H|]. intros a Ha. by apply startsWith_longer.
Qed.

(** ** Runs that fail, and runs from the command line *)

Section EngineEdges.

Variable accepts : list string → string → bool.

Lemma query_latest_missing t w :
  tables (database w) !! t = None →
  query accepts (SelectLatestVersion t) w =
    (Throw (QueryError (SelectLatestVersion t)),
     after (SelectLatestVersion t) (tables (database w)) (executed (database w)) w).
Proof. intros H. unfold query. simpl. by rewrite H. Qed.

Lemma readdirSync_missing scriptsDir w :
  fs w !! scriptsDir = None →
  readdirSync scriptsDir w = (Throw (NoSuchDirectory scriptsDir), w).
Proof. intros H. unfold readdirSync. by rewrite H. Qed.

(** X11. A Down that does not return, for whatever reason (seeds, no
    connection, no ledger, an empty ledger, no directory, no script of the
    version, a DOWN body the server rejects), has run no script and has left
    the tables and the files as they were: the row of a version is deleted
    only after its DOWN body was accepted. *)
Theorem migrateDown_fails_safe db scriptsDir type w :
  (migrateDown accepts db scriptsDir type w).1 ≠ Returned →
  tables (database (migrateDown accepts db scriptsDir type w).2)
    = tables (database w) ∧
  executed (database (migrateDown accepts db scriptsDir type w).2)
    = executed (database w) ∧
  fs (migrateDown accepts db scriptsDir type w).2 = fs w.
Proof.
  unfold migrateDown. case_decide; [done|]. destruct db as [p|]; [|done].
  unfold try_exit.
  destruct (tables (database w) !! table_of type) as [tb|] eqn:Htb.
  2: { by rewrite (bind_throw _ _ _ _ _ (query_latest_missing _ _ Htb)). }
  rewrite (bind_ok _ _ _ _ _ (query_latest _ _ _ _ Htb)).
  destruct (rows (result_of (take 1 (latest_first (table_rows tb)))) !! 0%nat)
    as [row|]; [|done].
  simpl from_option. erewrite (bind_ok (mret _)); [|done].
  set (w1 := after _ _ _ w).
  destruct (fs w !! scriptsDir) as [dir|] eqn:Hdir.
  2: { by rewrite (bind_throw _ _ _ _ _ (readdirSync_missing scriptsDir w1 Hdir)). }
  erewrite bind_ok; [|by apply (readdirSync_ok scriptsDir dir)].
  destruct (find_script (version row) (entries dir)) as [file|] eqn:Hfile; [|done].
  destruct (find_script_names _ _ _ Hfile) as [contents Hc].
  erewrite bind_ok; [|by eapply readFileSync_ok].
  destruct (accepts (executed (database w1)) (extractDown contents)) eqn:Hacc.
  - erewrite bind_ok; [|by apply query_script_accepted].
    erewrite bind_ok; [|by apply query_delete]. done.
  - erewrite bind_throw; [|by apply query_script_rejected]. done.
Qed.

(** X12. Down on a ledger whose newest version has no script in the
    directory (no entry that starts with the version and an underscore and
    ends in [.sql]) exits with code 1 on [Migration script version ... not
    found], having sent the [SELECT] only. *)
Theorem migrateDown_script_not_found w scriptsDir type dir tb rs1 r rs2 :
  type ≠ "seed" →
  fs w !! scriptsDir = Some dir →
  tables (database w) !! table_of type = Some tb →
  table_rows tb = rs1 ++ r :: rs2 →
  (∀ x, x ∈ rs1 ++ rs2 → older x r) →
  find_script (row_version r) (entries dir) = None →
  migrateDown accepts (Some pool) scriptsDir type w =
    (Exited 1 "Migration DOWN failed: " (ScriptNotFound (row_version r)),
     after (SelectLatestVersion (table_of type))
       (tables (database w)) (executed (database w)) w).
Proof.
  intros Htype Hdir Htb Hrows Hnew Hfile.
  unfold migrateDown, try_exit. rewrite decide_False by done.
  rewrite (bind_ok _ _ _ _ _ (query_latest _ _ _ _ Htb)).
  rewrite Hrows, (latest_first_head _ _ _ Hnew). simpl.
  erewrite (bind_ok (mret _)); [|done].
  erewrite bind_ok; [|by apply readdirSync_ok].
  cbn [version]. by rewrite Hfile.
Qed.

Lemma migrateReset_loop_rejected scriptsDir dir f rest w :
  fs w !! scriptsDir = Some dir → is_Some (dir !! f) →
  accepts (executed (database w)) (down_body dir f) = false →
  migrateReset_loop accepts scriptsDir (f :: rest) w =
    (Throw (QueryError (Script (down_body dir f))),
     after (Script (down_body dir f))
       (tables (database w)) (executed (database w)) w).
Proof.
  intros Hdir [contents Hc] Hf.
  assert (down_body dir f = extractDown contents) as Hbody
    by (unfold down_body; by rewrite Hc).
  rewrite Hbody in *. rewrite migrateReset_loop_cons.
  rewrite (bind_ok _ _ _ _ _ (readFileSync_ok _ _ _ _ _ Hdir Hc)).
  by rewrite (bind_throw _ _ _ _ _ (query_script_rejected _ _ _ Hf)).
Qed.

Lemma migrateReset_loop_app scriptsDir l1 l2 w :
  migrateReset_loop accepts scriptsDir (l1 ++ l2) w =
    match migrateReset_loop accepts scriptsDir l1 w with
    | (Ok _, w') => migrateReset_loop accepts scriptsDir l2 w'
    | (Throw e, w') => (Throw e, w')
    end.
Proof.
  revert w. induction l1 as [|f l1 IH]; intros w; [done|].
  rewrite <- app_comm_cons, !migrateReset_loop_cons. unfold mbind, eff_bind.
  destruct (readFileSync scriptsDir f w) as [[contents|e] w1]; [|done].
  destruct (query accepts (Script (extractDown contents)) w1) as [[r|e] w2]; [|done].
  apply IH.
Qed.

(** X13. Reset of migrations stops at the first DOWN body the server
    rejects and exits with code 1: the DOWN bodies of the scripts before it,
    in descending order of file name, have been run, nothing is sent for
    the scripts after it, and the ledger still has every row, those of the
    scripts already reverted too. *)
Theorem migrateReset_fail_fast w scriptsDir type dir tb pre fN post :
  type ≠ "seed" →
  fs w !! scriptsDir = Some dir →
  tables (database w) !! table_of type = Some tb →
  applied_files (applied type (database w)) (entries dir) = pre ++ fN :: post →
  length (pre ++ fN :: post) = length (table_rows tb) →
  all_accepted accepts (executed (database w)) (down_body dir <$> pre) = true →
  accepts (executed (database w) ++ (down_body dir <$> pre)) (down_body dir fN)
    = false →
  ∃ w',
    migrateReset accepts (Some pool) scriptsDir type w =
      (Exited 1 "Migration DOWN failed: "
         (QueryError (Script (down_body dir fN))), w') ∧
    tables (database w') = tables (database w) ∧
    executed (database w') = executed (database w) ++ (down_body dir <$> pre) ∧
    issued (database w') =
      issued (database w)
      ++ SelectVersions (table_of type) :: down_statements dir pre
      ++ [Script (down_body dir fN)] ∧
    fs w' = fs w.
Proof.
  intros Htype Hdir Htb Hfiles Hlen Hacc Hrej.
  assert (∀ f, f ∈ pre ++ fN :: post → is_Some (dir !! f)) as Hin.
  { intros f Hf. rewrite <- Hfiles in Hf.
    by apply (elem_of_applied_files accepts), proj1, elem_of_scripts_of, proj1 in Hf. }
  set (w1 := after (SelectVersions (table_of type))
               (tables (database w)) (executed (database w)) w).
  destruct (migrateReset_loop_ok accepts scriptsDir dir pre w1)
    as (w2 & Hrun & Hfs & Htbs & Hex & Hiss); try done.
  { intros f Hf. apply Hin, elem_of_app. by left. }
  eexists. split.
  { rewrite (migrateReset_unfold _ _ _ _ _ _ Htype Hdir Htb). unfold try_exit.
    fold w1. rewrite Hfiles, decide_False by (by intros ?).
    erewrite bind_throw; [done|].
    rewrite migrateReset_loop_app, Hrun.
    apply (migrateReset_loop_rejected _ dir).
    - by rewrite Hfs.
    - apply Hin, elem_of_app. right. by left.
    - by rewrite Hex. }
  simpl. rewrite Hfs, Htbs, Hex, Hiss. subst w1. simpl.
  by rewrite <- !(assoc_L (++)).
Qed.

(** X14. Up and then Down: on a ledger whose rows are in the order of
    their recording, an Up that applies the pending scripts, the last of
    them [f] with a version none of the others has, followed by a Down,
    leaves as applied the versions of before and those of the pending
    scripts but [f]: Down reverts the script Up applied last. *)
Theorem migrateUp_then_migrateDown w scriptsDir type dir tb pre f :
  type ≠ "seed" →
  fs w !! scriptsDir = Some dir →
  tables (database w) !! table_of type = Some tb →
  recorded_in_order (database w) tb →
  pending (applied type (database w)) (entries dir) = pre ++ [f] →
  version_of f ∉ version_of <$> pre →
  is_Some (find_script (version_of f) (entries dir)) →
  all_accepted accepts (executed (database w))
    ((up_body dir <$> pre ++ [f]) ++ [down_of dir (version_of f)]) = true →
  ∃ w1 w2,
    migrateUp accepts (Some pool) scriptsDir type w = (Returned, w1) ∧
    migrateDown accepts (Some pool) scriptsDir type w1 = (Returned, w2) ∧
    applied type (database w2) =
      applied type (database w) ++ (version_of <$> pre) ∧
    executed (database w2) =
      executed (database w)
      ++ (up_body dir <$> pre ++ [f]) ++ [down_of dir (version_of f)] ∧
    fs w2 = fs w.
Proof.
  intros Htype Hdir Htb Hord Hpend Hfresh Hfound Hacc.
  rewrite all_accepted_app in Hacc. apply andb_true_iff in Hacc as [Hup Hdown].
  simpl in Hdown. rewrite andb_true_r in Hdown.
  destruct (migrateUp_accepted accepts w scriptsDir type dir tb Hdir Htb)
    as (w1 & tb' & Hrun & Hfs & Htbs & Hvers & Hex & _); [by rewrite Hpend|].
  rewrite Hpend in Hvers, Hex.
  assert (tables (database w1) !! table_of type = Some tb') as Htb'
    by (rewrite Htbs; apply lookup_insert_eq).
  destruct (migrateUp_order accepts scriptsDir type w tb Htb Hord)
    as (tb2 & Htb2 & Hord').
  rewrite Hrun in Htb2, Hord'. simpl in Htb2, Hord'.
  assert (tb2 = tb') as -> by congruence.
  rewrite fmap_app, (assoc_L (++)) in Hvers.
  apply fmap_app_inv in Hvers as (rs & rl & Hrs & Hrl & Hrows).
  destruct rl as [|r [|??]]; [done| |done].
  injection Hrl as Hr. clear Htb2.
  assert (version_of f ∉ applied type (database w)) as Hnew.
  { assert (f ∈ pending (applied type (database w)) (entries dir)) as Hf
      by (rewrite Hpend; apply elem_of_app; right; by left).
    by apply elem_of_pending_names in Hf as (_ & _ & Hf). }
  rewrite (applied_lookup _ _ _ Htb) in Hnew |- *.
  destruct Hord' as [Hsorted _]. rewrite Hrows in Hsorted.
  apply StronglySorted_app in Hsorted as (Hcross & _ & _).
  destruct (migrateDown_step accepts w1 scriptsDir type dir tb' rs r [])
    as (w2 & Hrun2 & Hfs2 & Htbs2 & Hex2 & _); try done.
  - by rewrite Hfs.
  - rewrite app_nil_r. intros x Hx. apply Hcross; [done|by left].
  - by rewrite <- Hr.
  - by rewrite Hex, <- Hr.
  - exists w1, w2. split; [done|]. split; [done|].
    assert (tables (database w2) !! table_of type
            = Some (delete_rows (row_version r) tb')) as Htb2
      by (rewrite Htbs2; apply lookup_insert_eq).
    rewrite (applied_lookup _ _ _ Htb2), Hex2, Hex, <- Hr, Hfs2, Hfs.
    repeat split; [|by rewrite <- !(assoc_L (++))].
    destruct tb' as [rows' serial]. simpl in Hrows. subst rows'.
    rewrite Hr, delete_rows_unique, app_nil_r; [done|].
    rewrite app_nil_r. intros x Hx Heq.
    assert (row_version x ∈ row_version <$> rs) as Hin
      by (apply list_elem_of_fmap; by exists x).
    rewrite <- Hrs, Heq, <- Hr in Hin. apply elem_of_app in Hin as [Hin|Hin]; done.
Qed.

Lemma try_exit_code label body w code l e w' :
  try_exit label body w = (Exited code l e, w') → code = 1.
Proof.
  unfold try_exit. destruct (body w) as [[[]|e0] w0]; [done|].
  by intros [= <- _ _ _].
Qed.

Lemma migrateUp_exit_code db scriptsDir type w code l e w' :
  migrateUp accepts db scriptsDir type w = (Exited code l e, w') → code = 1.
Proof. destruct db; [apply try_exit_code|done]. Qed.

Lemma migrateDown_exit_code db scriptsDir type w code l e w' :
  migrateDown accepts db scriptsDir type w = (Exited code l e, w') → code = 1.
Proof.
  unfold migrateDown. case_decide; [done|].
  destruct db; [apply try_exit_code|done].
Qed.

Lemma migrateReset_exit_code db scriptsDir type w code l e w' :
  migrateReset accepts db scriptsDir type w = (Exited code l e, w') → code = 1.
Proof. destruct db; [apply try_exit_code|done]. Qed.

(** X15. The exit code of a run from the command line is 0 or 1, and it
    is 0 only for one of the four actions on one of the two kinds, with a
    name when the action is New, and not for Down on seeds. *)
Theorem runMigrations_exit_code cwd action driver type name w :
  (runMigrations accepts cwd action driver type name w).1 ≤ 1 ∧
  ((runMigrations accepts cwd action driver type name w).1 = 0 →
   action ∈ ["up"; "down"; "reset"; "new"] ∧ type ∈ ["migration"; "seed"] ∧
   (action = "new" → name ≠ "") ∧ (action = "down" → type ≠ "seed")).
Proof.
  unfold runMigrations.
  destruct (bool_decide_reflect (type ∈ ["migration"; "seed"])) as [Htype|Htype].
  2: { rewrite (bool_decide_eq_false_2 _ Htype : Js.includes _ _ = false).
       simpl. split; [lia|done]. }
  rewrite (bool_decide_eq_true_2 _ Htype : Js.includes _ _ = true).
  cbn [negb].
  destruct (_ && _ && _) eqn:Hnamed; [simpl; split; [lia|done]|].
  cbv zeta.
  set (dir := cwd ++ _).
  destruct (decide (action = "new")) as [->|Hnew].
  { simpl. destruct (decide (name = "")) as [->|Hne].
    - simpl. split; [lia|done].
    - rewrite (generateMigration_result dir name type w Hne). cbv zeta.
      destruct (_ !! dirname _); simpl; (split; [lia|]); [|done].
      intros _. repeat split; [by_compute|done|done|done]. }
  rewrite (bool_decide_eq_true_2 _ Hnew), (bool_decide_eq_false_2 _ Hnew).
  destruct (ensure_ledger accepts (table_of type) w) as (r & w1 & Hq & _).
  rewrite (bind_ok _ _ _ _ _ Hq). cbn [mret eff_ret].
  destruct (decide (action = "up")) as [Hup|Hup].
  { rewrite (bool_decide_eq_true_2 _ Hup). cbv beta iota.
    destruct (migrateUp accepts (Some pool) dir type w1) as [[|e|code l e] w2] eqn:Hrun;
      simpl; [split; [lia|intros _; subst action; repeat split; [by_compute|done..]]
             |split; [lia|done]|].
    apply migrateUp_exit_code in Hrun as ->. split; [lia|done]. }
  rewrite (bool_decide_eq_false_2 _ Hup).
  destruct (decide (action = "down")) as [Hdown|Hdown].
  { rewrite (bool_decide_eq_true_2 _ Hdown). cbv beta iota.
    destruct (migrateDown accepts (Some pool) dir type w1) as [[|e|code l e] w2] eqn:Hrun;
      simpl; [|split; [lia|done]|].
    - split; [lia|]. intros _. subst action. repeat split; [by_compute|done|done|].
      intros _ ->. by vm_compute in Hrun.
    - apply migrateDown_exit_code in Hrun as ->. split; [lia|done]. }
  rewrite (bool_decide_eq_false_2 _ Hdown).
  destruct (decide (action = "reset")) as [Hreset|Hreset].
  { rewrite (bool_decide_eq_true_2 _ Hreset). cbv beta iota.
    destruct (migrateReset accepts (Some pool) dir type w1) as [[|e|code l e] w2] eqn:Hrun;
      simpl; [split; [lia|intros _; subst action; repeat split; [by_compute|done..]]
             |split; [lia|done]|].
    apply migrateReset_exit_code in Hrun as ->. split; [lia|done]. }
  rewrite (bool_decide_eq_false_2 _ Hreset). simpl. split; [lia|done].
Qed.

(** X16. An action that is none of the four is refused with exit code 1
    only after the ledger table of the kind has been created: this
    statement is the one the server receives, no script is run and no file
    is touched. *)
Theorem runMigrations_unknown_action cwd action driver type name w :
  action ∉ ["up"; "down"; "reset"; "new"] →
  type ∈ ["migration"; "seed"] →
  ∃ w',
    runMigrations accepts cwd action driver type name w = (1, w') ∧
    is_Some (tables (database w') !! table_of type) ∧
    issued (database w') =
      issued (database w) ++ [CreateTableIfNotExists (table_of type)] ∧
    executed (database w') = executed (database w) ∧
    fs w' = fs w.
Proof.
  intros Haction Htype.
  assert (action ≠ "up" ∧ action ≠ "down" ∧ action ≠ "reset" ∧ action ≠ "new")
    as (Hup & Hdown & Hreset & Hnew).
  { repeat split; intros ->; apply Haction; by_compute. }
  exists (query accepts (CreateTableIfNotExists (table_of type)) w).2.
  split.
  - unfold runMigrations.
    rewrite (bool_decide_eq_true_2 _ Htype : Js.includes _ _ = true).
    rewrite (bool_decide_eq_false_2 _ Hnew), (bool_decide_eq_true_2 _ Hnew).
    rewrite (bool_decide_eq_false_2 _ Hup), (bool_decide_eq_false_2 _ Hdown),
      (bool_decide_eq_false_2 _ Hreset). cbn [negb andb].
    destruct (ensure_ledger accepts (table_of type) w) as (r & w1 & Hq & _).
    by rewrite (bind_ok _ _ _ _ _ Hq), Hq.
  - destruct (ensure_ledger accepts (table_of type) w)
      as (r & w1 & Hq & Hsome & _ & Hex & Hfs).
    rewrite Hq. simpl. repeat split; try done.
    unfold query in Hq. simpl in Hq. by injection Hq as _ <-.
Qed.





(** X18. Reset of seeds from the command line, whatever the database and
    the files: the seeds ledger is created if it is missing and dropped,
    so that it does not exist afterwards; the other tables are as before,
    no script is run, the directory of the seeds is not read, and the
    process exits with code 0. *)
Theorem runMigrations_reset_seed cwd driver name w :
  ∃ w',
    runMigrations accepts cwd "reset" driver "seed" name w = (0, w') ∧
    tables (database w') = delete "node_migrator_seeds" (tables (database w)) ∧
    executed (database w') = executed (database w) ∧
    issued (database w') =
      issued (database w)
      ++ [CreateTableIfNotExists "node_migrator_seeds";
          DropTableIfExists "node_migrator_seeds"] ∧
    fs w' = fs w.
Proof.
  eexists. split; [reflexivity|]. simpl. repeat split.
  - change (table_of "seed") with "node_migrator_seeds".
    destruct (tables (database w) !! "node_migrator_seeds"); [done|].
    by rewrite delete_insert_eq.
  - by rewrite <- (assoc_L (++)).
Qed.

(** X19. New from the command line, for either kind, with a name that has
    no path separator and a driver that is the name of a directory: the
    process exits with code 0, the template is written under the name
    [{timestamp}_{name}.sql] into [db/{driver}/{kind}] below the working
    directory, and the database is as before. *)
Theorem runMigrations_new cwd driver type name w :
  type ∈ ["migration"; "seed"] → is_name driver →
  name ≠ "" → ¬ occurs "/" name →
  let scriptsDir := cwd ++ ["db"; driver; type] in
  let file := script_name (timestamp_of (date_now w)) name in
  ∃ w',
    runMigrations accepts cwd "new" driver type name w = (0, w') ∧
    database w' = database w ∧
    fs w' !! scriptsDir =
      Some (<[file := TEMPLATE]> (default ∅ (fs w !! scriptsDir))).
Proof.
  intros Htype Hdriver Hname Hsep scriptsDir file.
  assert (runMigrations accepts cwd "new" driver type name w =
          (0, (generateMigration scriptsDir name type w).2)) as ->.
  { unfold scriptsDir.
    repeat (apply elem_of_cons in Htype as [->|Htype]);
      [| |by apply elem_of_nil in Htype].
    - unfold runMigrations. simpl.
      by rewrite (generateMigration_writes _ name "migration" w Hname Hsep).
    - unfold runMigrations. simpl.
      rewrite (bool_decide_eq_false_2 (name = "")) by done. simpl.
      by rewrite (generateMigration_writes _ name "seed" w Hname Hsep). }
  eexists. split; [done|].
  rewrite (generateMigration_writes scriptsDir name type w Hname Hsep). simpl.
  split; [done|]. apply lookup_insert_eq.
Qed.

(** X20. A command line without any argument that starts with two dashes
    runs Up on the migrations of postgres. *)
Theorem runMigrations_argv_defaults cwd argv :
  Forall (λ a, Js.startsWith a "--" = false) argv →
  runMigrations_argv accepts cwd argv =
    runMigrations accepts cwd "up" "postgres" "migration" "".
Proof.
  intros H. unfold runMigrations_argv. by rewrite !getArg_no_flag.
Qed.

Lemma filter_versions v rs :
  row_version <$> List.filter (λ r, negb (bool_decide (row_version r = v))) rs
  = List.filter (λ x, negb (bool_decide (x = v))) (row_version <$> rs).
Proof.
  induction rs as [|r rs IH]; [done|].
  rewrite fmap_cons. cbn [List.filter].
  destruct (bool_decide (row_version r = v)); cbn [negb]; [done|].
  by rewrite fmap_cons, IH.
Qed.

(** X21. A Down that returns has deleted every row of the version of the
    newest row, not that row alone: where several rows share the version,
    as after an Up over two scripts of one version, one Down removes them
    all and runs one DOWN body, that of the first script of the version in
    the order of the directory listing. The rows of the other versions
    stay, in their order. *)
Theorem migrateDown_deletes_version w scriptsDir type dir tb rs1 r rs2 :
  type ≠ "seed" →
  fs w !! scriptsDir = Some dir →
  tables (database w) !! table_of type = Some tb →
  table_rows tb = rs1 ++ r :: rs2 →
  (∀ x, x ∈ rs1 ++ rs2 → older x r) →
  is_Some (find_script (row_version r) (entries dir)) →
  accepts (executed (database w)) (down_of dir (row_version r)) = true →
  ∃ w',
    migrateDown accepts (Some pool) scriptsDir type w = (Returned, w') ∧
    applied type (database w') =
      List.filter (λ v, negb (bool_decide (v = row_version r)))
        (applied type (database w)) ∧
    (row_version r ∉ applied type (database w')) ∧
    executed (database w') =
      executed (database w) ++ [down_of dir (row_version r)].
Proof.
  intros Htype Hdir Htb Hrows Hnew Hfound Hacc.
  destruct (migrateDown_step accepts w scriptsDir type dir tb rs1 r rs2)
    as (w' & Hrun & _ & Htbs & Hex & _); try done.
  exists w'. split; [done|].
  assert (tables (database w') !! table_of type
          = Some (delete_rows (row_version r) tb)) as Htb'
    by (rewrite Htbs; apply lookup_insert_eq).
  rewrite (applied_lookup _ _ _ Htb'), (applied_lookup _ _ _ Htb).
  unfold delete_rows. cbn [table_rows]. rewrite filter_versions.
  split; [done|]. split; [|done].
  rewrite list_elem_of_In, filter_In. intros [_ H].
  by rewrite bool_decide_eq_true_2 in H.
Qed.


End EngineEdges.

(** ** The further properties at the example worlds *)

Lemma find_script_of_version_witness :
  let names := ["README.md"; "init.sql"; "20240101000000_init.sql"] in
  (∃ g, find_script (version_of "20240101000000_init.sql") names = Some g ∧
        g ∈ names ∧ version_of g = version_of "20240101000000_init.sql") ∧
  version_of "init.sql" = "init.sql" ∧
  find_script (version_of "init.sql") names ≠ Some "init.sql".
Proof.
  intros names. split.
  - destruct (find_script_of_version names "20240101000000_init.sql") as [H _];
      [by_compute|reflexivity|].
    apply H. by exists "20240101000000", "init.sql".
  - destruct (find_script_of_version names "init.sql") as [_ H];
      [by_compute|reflexivity|].
    apply H. apply not_occurs_of_split; [done|reflexivity].
Defined.

Lemma timestamp_of_iso_witness :
  timestamp_of "2024-01-15T14:30:22.123Z" = "20240115143022".
Proof.
  apply (timestamp_of_iso "2024" "01" "15" "14" "30" "22" "123Z");
    first [by_compute | done | unfold all_digits, one_line; simpl; repeat constructor].
Defined.

Lemma generateMigration_names_a_script_witness :
  ∃ w' dir',
    generateMigration example_dir "users" "migration" (world_of [] two_scripts)
      = (Returned, w') ∧
    fs w' !! example_dir = Some dir' ∧
    dir' !! "20240115143022_users.sql" = Some TEMPLATE ∧
    version_of "20240115143022_users.sql" = "20240115143022" ∧
    "20240115143022_users.sql" ∈ pending ["20240101000000"] (entries dir').
Proof.
  destruct (generateMigration_names_a_script example_dir "users" "migration"
              (world_of [] two_scripts))
    as (w' & dir' & Hrun & Hdir & Hfile & _ & Hv & Hpending & _);
    [done|apply not_occurs_of_split; [done|reflexivity]|].
  exists w', dir'. split; [exact Hrun|]. split; [exact Hdir|].
  split; [exact Hfile|]. split; [exact Hv|].
  apply (Hpending ["20240101000000"]). by_compute.
Defined.

Lemma migrateDown_fails_safe_witness :
  let w := world_of [init_row] two_scripts in
  (migrateDown reject_table_t (Some pool) example_dir "migration" w).1 ≠ Returned ∧
  tables (database (migrateDown reject_table_t (Some pool) example_dir
                      "migration" w).2) = tables (database w) ∧
  executed (database (migrateDown reject_table_t (Some pool) example_dir
                        "migration" w).2) = [].
Proof.
  intros w.
  assert ((migrateDown reject_table_t (Some pool) example_dir "migration" w).1
          ≠ Returned) as H by (vm_compute; discriminate).
  split; [exact H|].
  destruct (migrateDown_fails_safe reject_table_t (Some pool) example_dir
              "migration" w H) as (Htbs & Hex & _).
  split; [exact Htbs|exact Hex].
Defined.

Lemma migrateDown_script_not_found_witness :
  ∃ w',
    migrateDown accept_all (Some pool) example_dir "migration"
      (world_of [init_row; orphan_row] two_scripts)
    = (Exited 1 "Migration DOWN failed: " (ScriptNotFound "20240103000000"), w').
Proof.
  eexists.
  apply (migrateDown_script_not_found accept_all
           (world_of [init_row; orphan_row] two_scripts) example_dir "migration"
           two_scripts (mkTable [init_row; orphan_row] 3) [init_row] orphan_row []).
  - done.
  - reflexivity.
  - reflexivity.
  - reflexivity.
  - intros x Hx. apply elem_of_cons in Hx as [->|Hx].
    + unfold older. simpl. lia.
    + apply elem_of_nil in Hx. destruct Hx.
  - vm_compute. reflexivity.
Defined.

Lemma migrateReset_fail_fast_witness :
  let w := world_of [init_row; users_row] two_scripts in
  ∃ w',
    migrateReset reject_table_t (Some pool) example_dir "migration" w
      = (Exited 1 "Migration DOWN failed: "
           (QueryError (Script (down_body two_scripts "20240101000000_init.sql"))),
         w') ∧
    tables (database w') = tables (database w) ∧
    executed (database w') = [down_body two_scripts "20240102000000_users.sql"].
Proof.
  intros w.
  destruct (migrateReset_fail_fast reject_table_t w example_dir "migration"
              two_scripts (mkTable [init_row; users_row] 3)
              ["20240102000000_users.sql"] "20240101000000_init.sql" [])
    as (w' & Hrun & Htbs & Hex & _).
  - done.
  - reflexivity.
  - reflexivity.
  - vm_compute. reflexivity.
  - reflexivity.
  - vm_compute. reflexivity.
  - vm_compute. reflexivity.
  - exists w'. split; [exact Hrun|]. split; [exact Htbs|exact Hex].
Defined.

Lemma migrateUp_then_migrateDown_witness :
  ∃ w1 w2,
    migrateUp accept_all (Some pool) example_dir "migration"
      (world_of [] two_scripts) = (Returned, w1) ∧
    migrateDown accept_all (Some pool) example_dir "migration" w1 = (Returned, w2) ∧
    applied "migration" (database w2) = ["20240101000000"].
Proof.
  destruct (migrateUp_then_migrateDown accept_all (world_of [] two_scripts)
              example_dir "migration" two_scripts (mkTable [] 1)
              ["20240101000000_init.sql"] "20240102000000_users.sql")
    as (w1 & w2 & Hup & Hdown & HA & _).
  - done.
  - reflexivity.
  - reflexivity.
  - split; constructor.
  - vm_compute. reflexivity.
  - by_compute.
  - by_compute.
  - reflexivity.
  - exists w1, w2. split; [exact Hup|]. split; [exact Hdown|exact HA].
Defined.

Lemma runMigrations_unknown_action_witness :
  ∃ w',
    runMigrations accept_all ["srv"; "app"] "status" "postgres" "migration" ""
      fresh_world = (1, w') ∧
    is_Some (tables (database w') !! "node_migrator_migrations") ∧
    issued (database w') = [CreateTableIfNotExists "node_migrator_migrations"].
Proof.
  destruct (runMigrations_unknown_action accept_all ["srv"; "app"] "status"
              "postgres" "migration" "" fresh_world)
    as (w' & Hrun & Htb & Hiss & _).
  - by_compute.
  - by_compute.
  - exists w'. split; [exact Hrun|]. split; [exact Htb|exact Hiss].
Defined.


Lemma runMigrations_new_witness :
  let w := world_of [] two_scripts in
  ∃ w',
    runMigrations accept_all ["srv"; "app"] "new" "postgres" "seed" "users" w
      = (0, w') ∧
    database w' = database w ∧
    fs w' !! ["srv"; "app"; "db"; "postgres"; "seed"]
      = Some (<["20240115143022_users.sql" := TEMPLATE]> ∅).
Proof.
  intros w.
  destruct (runMigrations_new accept_all ["srv"; "app"] "postgres" "seed"
              "users" w) as (w' & Hrun & Hdb & Hfs).
  - by_compute.
  - repeat split; [done..|]. apply not_occurs_of_split; [done|reflexivity].
  - done.
  - apply not_occurs_of_split; [done|reflexivity].
  - exists w'. split; [exact Hrun|]. split; [exact Hdb|exact Hfs].
Defined.

Lemma runMigrations_argv_defaults_witness :
  runMigrations_argv accept_all ["srv"; "app"] ["node"; "index.js"] =
    runMigrations accept_all ["srv"; "app"] "up" "postgres" "migration" "".
Proof.
  apply runMigrations_argv_defaults. repeat constructor.
Defined.

Lemma runMigrations_exit_code_witness :
  (runMigrations accept_all ["srv"; "app"] "down" "postgres" "seed" ""
     fresh_world).1 = 1.
Proof.
  destruct (runMigrations_exit_code accept_all ["srv"; "app"] "down" "postgres"
              "seed" "" fresh_world) as [Hle Hzero].
  destruct ((runMigrations accept_all ["srv"; "app"] "down" "postgres" "seed" ""
               fresh_world).1) as [|[|n]]; [|reflexivity|lia].
  destruct (Hzero eq_refl) as (_ & _ & _ & Hseed). by destruct Hseed.
Defined.

Lemma migrateDown_deletes_version_witness :
  ∃ w',
    migrateDown accept_all (Some pool) example_dir "migration"
      (world_of [init_row; init_again_row] twin_scripts) = (Returned, w') ∧
    applied "migration" (database w') = [] ∧
    executed (database w') = [down_body twin_scripts "20240101000000_init.sql"].
Proof.
  destruct (migrateDown_deletes_version accept_all
              (world_of [init_row; init_again_row] twin_scripts)
              example_dir "migration" twin_scripts
              (mkTable [init_row; init_again_row] 3) [init_row] init_again_row [])
    as (w' & Hrun & HA & _ & Hex).
  - done.
  - reflexivity.
  - reflexivity.
  - reflexivity.
  - intros x Hx. apply elem_of_cons in Hx as [->|Hx].
    + unfold older. simpl. lia.
    + apply elem_of_nil in Hx. destruct Hx.
  - by_compute.
  - reflexivity.
  - exists w'. split; [exact Hrun|]. split.
    + rewrite HA. vm_compute. reflexivity.
    + rewrite Hex. vm_compute. reflexivity.
Defined.

